(** * buildah: the [images] command and the ID-map helpers

    A shallow embedding of [cmd/buildah/images.go] and of the ID-map
    conversions of [util.go], with the properties of the listing pipeline
    stated and proved over it.

    Conventions.
    - Go [string] is a byte sequence: [string] (a list of [ascii]).
    - Go [int], [int64], [uint32] are [Z] with the wrap-around written out.
    - [float64] is [spec_float] at precision 53, the IEEE 754 binary64
      format, with the library's correctly rounded operations.
    - A Go [map[string]string] is a [gmap string string].
    - Calls that can fail return a [result]; an index out of range is a
      [Panic], as it is at run time.
    - Collaborators outside the two files (the store, the reference parser,
      [sort.Sort], the renderer) are Section variables.
    - Logging ([logrus]) and the [context.Context] argument do not bear on
      what the functions return and are left out. *)

From Stdlib Require Import ZArith String Ascii List Bool Lia Permutation.
From Stdlib Require Import Floats.SpecFloat Numbers.DecimalString.
From stdpp Require Import gmap strings list sorting.

Local Open Scope Z_scope.

(* ===================================================================== *)
(** * Results of fallible code *)
(* ===================================================================== *)

(** [Ok] is a normal return with a nil error, [Err] a normal return with a
    non-nil error, [Panic] a run-time panic (no return). *)
Inductive result (A : Type) : Type :=
  | Ok (a : A)
  | Err (msg : string)
  | Panic (msg : string).
Arguments Ok {A} a.
Arguments Err {A} msg.
Arguments Panic {A} msg.

#[global] Instance result_ret : MRet result := fun A a => Ok a.
#[global] Instance result_bind : MBind result := fun A B k r =>
  match r with
  | Ok a => k a
  | Err e => Err e
  | Panic p => Panic p
  end.

#[global] Instance result_fmap : FMap result := fun A B f r =>
  match r with
  | Ok a => Ok (f a)
  | Err e => Err e
  | Panic p => Panic p
  end.

(** [l[i]] on a slice: a panic when [i] is out of range. *)
Definition index {A} (l : list A) (i : nat) : result A :=
  match l !! i with
  | Some x => Ok x
  | None => Panic "index out of range"
  end.

Definition is_Ok {A} (r : result A) : bool :=
  match r with Ok _ => true | _ => false end.

(* ===================================================================== *)
(** * The [strings] package, as far as the source uses it *)
(* ===================================================================== *)

Module strings.

Fixpoint take (n : nat) (s : string) : string :=
  match n, s with
  | S n', String c s' => String c (take n' s')
  | _, _ => EmptyString
  end.

Fixpoint drop (n : nat) (s : string) : string :=
  match n, s with
  | S n', String _ s' => drop n' s'
  | _, _ => s
  end.

(** [strings.HasPrefix(s, prefix)]. *)
Definition HasPrefix (s prefix : string) : bool := String.prefix prefix s.

(** [strings.HasSuffix(s, suffix)]:
    [len(s) >= len(suffix) && s[len(s)-len(suffix):] == suffix]. *)
Definition HasSuffix (s suffix : string) : bool :=
  (String.length suffix <=? String.length s)%nat
  && String.eqb (drop (String.length s - String.length suffix) s) suffix.

(** [strings.Index(s, substr)]: the first position where [substr]
    occurs, [None] for Go's [-1]. *)
Fixpoint Index (s substr : string) : option nat :=
  if String.prefix substr s then Some 0%nat
  else match s with
       | EmptyString => None
       | String _ s' => S <$> Index s' substr
       end.

(** [strings.Contains(s, substr)] is [Index(s, substr) >= 0]. *)
Definition Contains (s substr : string) : bool :=
  match Index s substr with Some _ => true | None => false end.

(** The loop of [genSplit]: at most [n] cuts at the separator, then the
    rest of the string. *)
Fixpoint genSplit_loop (n : nat) (s sep : string) : list string :=
  match n with
  | O => [s]
  | S n' =>
      match Index s sep with
      | None => [s]
      | Some m =>
          take m s :: genSplit_loop n' (drop (m + String.length sep) s) sep
      end
  end.

(** [strings.Count(s, sep)] for a non-empty separator: the number of
    non-overlapping occurrences. *)
Fixpoint Count_loop (fuel : nat) (s sep : string) : nat :=
  match fuel with
  | O => O
  | S f =>
      match Index s sep with
      | None => O
      | Some m => S (Count_loop f (drop (m + String.length sep) s) sep)
      end
  end.

Definition Count (s sep : string) : nat := Count_loop (String.length s) s sep.

(** [strings.SplitN(s, sep, n)] for a non-empty separator (every call in
    the source passes a one-byte literal): [n = 0] gives no substrings,
    [n < 0] all of them, [n > 0] at most [n], the last one being the
    unsplit remainder. *)
Definition SplitN (s sep : string) (n : Z) : list string :=
  if n =? 0 then []
  else
    let n1 := if n <? 0 then Z.of_nat (Count s sep) + 1 else n in
    let n2 := Z.min n1 (Z.of_nat (String.length s) + 1) in
    genSplit_loop (Z.to_nat (n2 - 1)) s sep.

(** [strings.Split(s, sep)] is [SplitN(s, sep, -1)]. *)
Definition Split (s sep : string) : list string := SplitN s sep (-1).

Fixpoint Join (elems : list string) (sep : string) : string :=
  match elems with
  | [] => EmptyString
  | [x] => x
  | x :: rest => x +:+ sep +:+ Join rest sep
  end.

(** [strings.Replace(s, old, new, n)] for a non-empty [old]: the first
    [n] occurrences are replaced, all of them when [n < 0]. *)
Definition Replace (s old new : string) (n : Z) : string :=
  Join (SplitN s old (if n <? 0 then -1 else n + 1)) new.

(** White space in the one-byte range: tab, line feed, vertical tab,
    form feed, carriage return and space.  (The multi-byte Unicode
    spaces that [unicode.IsSpace] also accepts are left alone.) *)
Definition isSpace (c : ascii) : bool :=
  let n := nat_of_ascii c in
  ((9 <=? n)%nat && (n <=? 13)%nat) || (n =? 32)%nat.

Fixpoint TrimLeft (s : string) : string :=
  match s with
  | String c s' => if isSpace c then TrimLeft s' else s
  | EmptyString => EmptyString
  end.

Fixpoint TrimRight (s : string) : string :=
  match s with
  | EmptyString => EmptyString
  | String c s' =>
      match TrimRight s' with
      | EmptyString => if isSpace c then EmptyString else String c EmptyString
      | t => String c t
      end
  end.

(** [strings.TrimSpace(s)]. *)
Definition TrimSpace (s : string) : string := TrimRight (TrimLeft s).

End strings.

(* ===================================================================== *)
(** * util.go: the ID-map conversions *)
(* ===================================================================== *)

Module idtools.
(** [idtools.IDMap]: three Go [int] fields. *)
Record IDMap : Type := mkIDMap {
  ContainerID : Z;
  HostID : Z;
  Size : Z
}.
End idtools.

Module rspec.
(** [rspec.LinuxIDMapping]: three [uint32] fields. *)
Record LinuxIDMapping : Type := mkLinuxIDMapping {
  HostID : Z;
  ContainerID : Z;
  Size : Z
}.
End rspec.

Module util.

(** The conversion [uint32(x)] of a Go [int]: the low 32 bits. *)
Definition uint32 (x : Z) : Z := x mod 2 ^ 32.

Section IntSize.
(** The width of Go's [int] on the platform, 32 or 64. *)
Variable intSize : Z.

(** The conversion [int(u)] of a [uint32]: the value is kept modulo
    [2^intSize] and read as a signed number. *)
Definition int (u : Z) : Z :=
  (u + 2 ^ (intSize - 1)) mod 2 ^ intSize - 2 ^ (intSize - 1).

(** The values a Go [int] can hold. *)
Definition is_int (x : Z) : Prop :=
  - 2 ^ (intSize - 1) <= x < 2 ^ (intSize - 1).

Definition convertStorageIDMaps (UIDMap GIDMap : list idtools.IDMap)
  : list rspec.LinuxIDMapping * list rspec.LinuxIDMapping :=
  let conv (m : idtools.IDMap) :=
    {| rspec.HostID := uint32 (idtools.HostID m);
       rspec.ContainerID := uint32 (idtools.ContainerID m);
       rspec.Size := uint32 (idtools.Size m) |} in
  let uidmap := fold_left (fun acc m => acc ++ [conv m]) UIDMap [] in
  let gidmap := fold_left (fun acc m => acc ++ [conv m]) GIDMap [] in
  (uidmap, gidmap).

Definition convertRuntimeIDMaps (UIDMap GIDMap : list rspec.LinuxIDMapping)
  : list idtools.IDMap * list idtools.IDMap :=
  let conv (m : rspec.LinuxIDMapping) :=
    {| idtools.HostID := int (rspec.HostID m);
       idtools.ContainerID := int (rspec.ContainerID m);
       idtools.Size := int (rspec.Size m) |} in
  let uidmap := fold_left (fun acc m => acc ++ [conv m]) UIDMap [] in
  let gidmap := fold_left (fun acc m => acc ++ [conv m]) GIDMap [] in
  (uidmap, gidmap).

(** An [int] that is non-negative and fits in 32 bits. *)
Definition fits32 (x : Z) : Prop := is_int x ∧ 0 <= x < 2 ^ 32.

Definition IDMap_fits32 (m : idtools.IDMap) : Prop :=
  fits32 (idtools.HostID m) ∧ fits32 (idtools.ContainerID m)
  ∧ fits32 (idtools.Size m).

(** A well-formed [uint32]. *)
Definition is_uint32 (u : Z) : Prop := 0 <= u < 2 ^ 32.

Definition LinuxIDMapping_wf (m : rspec.LinuxIDMapping) : Prop :=
  is_uint32 (rspec.HostID m) ∧ is_uint32 (rspec.ContainerID m)
  ∧ is_uint32 (rspec.Size m).
End IntSize.

End util.

(* ===================================================================== *)
(** * The [time] package: instants *)
(* ===================================================================== *)

Module time.

(** A [time.Time] read as an instant: the seconds since January 1 of
    year 1, 00:00:00 UTC, and the nanoseconds within that second (what
    the methods [sec()] and [nsec()] return).  The location is not part
    of the instant and no wall-clock reading of the store carries a
    monotonic clock. *)
Record Time : Type := mkTime { sec : Z; nsec : Z }.

(** [time.Time{}]. *)
Definition zero : Time := mkTime 0 0.

Definition IsZero (t : Time) : bool := (sec t =? 0) && (nsec t =? 0).

Definition After (t u : Time) : bool :=
  (sec t >? sec u) || ((sec t =? sec u) && (nsec t >? nsec u)).

Definition Before (t u : Time) : bool :=
  (sec t <? sec u) || ((sec t =? sec u) && (nsec t <? nsec u)).

Definition Equal (t u : Time) : bool :=
  (sec t =? sec u) && (nsec t =? nsec u).

(** [t.Local()] sets the location to local time; the instant is kept. *)
Definition Local (t : Time) : Time := t.

(** The order of instants, for the statements. *)
Definition lt (t u : Time) : Prop :=
  sec t < sec u ∨ (sec t = sec u ∧ nsec t < nsec u).

End time.

(* ===================================================================== *)
(** * [float64] and the verb [%.3g] *)
(* ===================================================================== *)

Module float64.

Definition prec : Z := 53.
Definition emax : Z := 1024.

(** The conversion [float64(n)] of an integer: the nearest binary64,
    ties to even. *)
Definition of_int (n : Z) : spec_float := binary_normalize prec emax n 0 false.

(** [x / y] and [x >= y] on binary64. *)
Definition div (x y : spec_float) : spec_float := SFdiv prec emax x y.
Definition geb (x y : spec_float) : bool := SFleb y x.

End float64.

Module strconv.

(** The decimal digits of a float, as [strconv] keeps them: the digit
    characters [d] without trailing zeros, and the position [dp] of the
    decimal point; the value is [0.d * 10^dp]. *)
Record decimalSlice : Type := mkDecimal { d : string; dp : Z }.

Definition nd (digs : decimalSlice) : Z := Z.of_nat (String.length (d digs)).

Definition digit (n : Z) : ascii := ascii_of_nat (48 + Z.to_nat n).

(** The [p] low decimal digits of [n], most significant first. *)
Fixpoint render (p : nat) (n : Z) (acc : string) : string :=
  match p with
  | O => acc
  | S p' => render p' (n / 10) (String (digit (n mod 10)) acc)
  end.

Fixpoint trimZeros (s : string) : string :=
  match s with
  | EmptyString => EmptyString
  | String c s' =>
      match trimZeros s' with
      | EmptyString => if Ascii.eqb c "0" then EmptyString else String c EmptyString
      | t => String c t
      end
  end.

(** The number of decimal digits of [q >= 1]. *)
Fixpoint countDigits (fuel : nat) (q : Z) : Z :=
  match fuel with
  | O => 1
  | S f => if q <? 10 then 1 else 1 + countDigits f (q / 10)
  end.

(** For [0 < num/den < 1]: the least [j >= 1] with [num*10^j >= den]. *)
Fixpoint leadingZeros (fuel : nat) (num den : Z) : Z :=
  match fuel with
  | O => 1
  | S f => if den <=? num * 10 then 1 else 1 + leadingZeros f (num * 10) den
  end.

(** The position of the decimal point of [num/den > 0]: the [k] with
    [10^(k-1) <= num/den < 10^k]. *)
Definition pointOf (num den : Z) : Z :=
  if den <=? num
  then countDigits (S (Z.to_nat (Z.log2 (num / den)))) (num / den)
  else 1 - leadingZeros (S (Z.to_nat (Z.log2 den))) num den.

(** [num/den > 0] correctly rounded to [digits] significant decimal
    digits, an exact half going to the even neighbour, then stripped of
    its trailing zeros. *)
Definition roundTo (digits : Z) (num den : Z) : decimalSlice :=
  let k := pointOf num den in
  let s := digits - k in
  let n' := if 0 <=? s then num * 10 ^ s else num in
  let d' := if 0 <=? s then den else den * 10 ^ (- s) in
  let q := n' / d' in
  let r := n' mod d' in
  let up := (d' <? 2 * r) || ((d' =? 2 * r) && Z.odd q) in
  let q' := if up then q + 1 else q in
  let '(q'', k') := if q' =? 10 ^ digits then (10 ^ (digits - 1), k + 1) else (q', k) in
  mkDecimal (trimZeros (render (Z.to_nat digits) q'' EmptyString)) k'.

(** The digits of a finite binary64 [m * 2^e]. *)
Definition digitsOf (digits : Z) (m : positive) (e : Z) : decimalSlice :=
  if 0 <=? e then roundTo digits (Z.pos m * 2 ^ e) 1
  else roundTo digits (Z.pos m) (2 ^ (- e)).

Fixpoint zeros (n : nat) : string :=
  match n with O => EmptyString | S n' => String "0" (zeros n') end.

Definition sign (neg : bool) : string := if neg then "-" else EmptyString.

(** [%e]: [d.ddde±dd], with [prec] digits after the point. *)
Definition fmtE (neg : bool) (digs : decimalSlice) (prec : Z) : string :=
  let first :=
    match d digs with String c _ => c | EmptyString => "0"%char end in
  let more :=
    if 0 <? prec then
      let m := Z.min (nd digs) (prec + 1) in
      let taken := strings.take (Z.to_nat (m - 1)) (strings.drop 1 (d digs)) in
      "." +:+ taken +:+ zeros (Z.to_nat (prec - Z.max 1 m + 1))
    else EmptyString in
  let exp := if nd digs =? 0 then 0 else dp digs - 1 in
  let esign := if exp <? 0 then "-" else "+" in
  let exp := Z.abs exp in
  let edigits :=
    if exp <? 10 then String "0" (String (digit exp) EmptyString)
    else if exp <? 100 then render 2 exp EmptyString
    else render 3 exp EmptyString in
  sign neg +:+ String first more +:+ "e" +:+ esign +:+ edigits.

(** The digit at position [j] of the fraction or integer part, ["0"]
    outside the digits kept. *)
Definition digitAt (digs : decimalSlice) (j : Z) : ascii :=
  if (0 <=? j) && (j <? nd digs)
  then match String.get (Z.to_nat j) (d digs) with Some c => c | None => "0"%char end
  else "0"%char.

Fixpoint fraction (digs : decimalSlice) (i : Z) (n : nat) : string :=
  match n with
  | O => EmptyString
  | S n' => String (digitAt digs (dp digs + i)) (fraction digs (i + 1) n')
  end.

(** [%f]: [ddd.ddd], with [prec] digits after the point. *)
Definition fmtF (neg : bool) (digs : decimalSlice) (prec : Z) : string :=
  let int :=
    if 0 <? dp digs then
      let m := Z.min (nd digs) (dp digs) in
      strings.take (Z.to_nat m) (d digs) +:+ zeros (Z.to_nat (dp digs - m))
    else "0" in
  let frac :=
    if 0 <? prec then "." +:+ fraction digs 0 (Z.to_nat prec) else EmptyString in
  sign neg +:+ int +:+ frac.

(** [formatDigits] for the verb [g]: [%e] when the decimal exponent is
    below [-4] or not below the precision, [%f] otherwise; in both the
    trailing zeros are gone, since the precision is cut to the digits
    kept. *)
Definition fmtG (neg : bool) (digs : decimalSlice) (prec : Z) : string :=
  let eprec :=
    if (nd digs <? prec) && (dp digs <=? nd digs) then nd digs else prec in
  let exp := dp digs - 1 in
  if (exp <? -4) || (eprec <=? exp) then
    let prec := if nd digs <? prec then nd digs else prec in
    fmtE neg digs (prec - 1)
  else
    let prec := if dp digs <? prec then nd digs else prec in
    fmtF neg digs (Z.max (prec - dp digs) 0).

End strconv.

Module fmt.

(** [fmt.Sprintf] of the verb [%.<prec>g] at a [float64].  The package
    documents it so: [%e] for large exponents, [%f] otherwise; the
    precision sets the maximum number of significant digits, and trailing
    zeros are removed (the flag [#] would keep them and is not set). *)
Definition Sprintf_g (prec : Z) (f : spec_float) : string :=
  let prec := if prec =? 0 then 1 else prec in
  match f with
  | S754_nan => "NaN"
  | S754_infinity s => if s then "-Inf" else "+Inf"
  | S754_zero s => strconv.fmtG s (strconv.mkDecimal EmptyString 0) prec
  | S754_finite s m e => strconv.fmtG s (strconv.digitsOf prec m e) prec
  end.

End fmt.


(* ===================================================================== *)
(** * The data the command reads and writes *)
(* ===================================================================== *)

Module reference.
(** What the source reads off a parsed [reference.Named]: [Name()], the
    tag when the reference is [reference.Tagged], the digest when it is
    [reference.Digested]. *)
Record Named : Type := mkNamed {
  Name : string;
  Tag : option string;
  Digest : option string
}.
End reference.

Module storage.
(** [storage.Image], the fields the command reads. *)
Record Image : Type := mkImage {
  ID : string;
  Digest : string;
  Digests : list string;
  Names : list string;
  Created : time.Time;
  ReadOnly : bool
}.
End storage.

Module types.
(** [types.ImageInspectInfo]: [Created] is a pointer, nil as [None]. *)
Record ImageInspectInfo : Type := mkImageInspectInfo {
  Created : option time.Time;
  Labels : gmap string string
}.
End types.

Module jsonImage.
Record t : Type := mk {
  ID : string;
  Names : list string;
  Digest : string;
  Digests : list string;
  CreatedAt : string;
  Size : string;
  CreatedAtRaw : time.Time;
  ReadOnly : bool
}.
End jsonImage.

Module imageOutputParams.
Record t : Type := mk {
  ID : string;
  Name : string;
  Tag : string;
  Digest : string;
  Digests : list string;
  CreatedAt : string;
  Size : string;
  CreatedAtRaw : time.Time;
  ReadOnly : bool
}.
End imageOutputParams.

Module imageOptions.
Record t : Type := mk {
  all : bool;
  digests : bool;
  format : string;
  json : bool;
  noHeading : bool;
  truncate : bool;
  quiet : bool;
  readOnly : bool
}.
End imageOptions.

Module filterParams.
Record t : Type := mk {
  dangling : string;
  label : string;
  beforeImage : string;
  sinceImage : string;
  beforeDate : time.Time;
  sinceDate : time.Time;
  referencePattern : string;
  readOnly : string
}.

(** [new(filterParams)]: every field at its zero value. *)
Definition new : t :=
  mk EmptyString EmptyString EmptyString EmptyString time.zero time.zero
     EmptyString EmptyString.
End filterParams.

Module imageResults.
(** The embedded [imageOptions] and the filter expression. *)
Record t : Type := mk {
  imageOptions : imageOptions.t;
  filter : string
}.
End imageResults.

(* ===================================================================== *)
(** * The [sort] package *)
(* ===================================================================== *)

Module sort.

(** [sort.Interface], over a value [T] that the methods read and, for
    [Swap], replace. *)
Record Interface (T : Type) : Type := mkInterface {
  Len : T → nat;
  Less : T → nat → nat → bool;
  Swap : T → nat → nat → T
}.
Arguments Len {T} _ _.
Arguments Less {T} _ _ _ _.
Arguments Swap {T} _ _ _ _.

(** The inner loop of the library's [insertionSort]:
    [for j := i; j > a && data.Less(j, j-1); j-- { data.Swap(j, j-1) }]
    with [a = 0]. *)
Fixpoint siftDown {T} (I : Interface T) (j : nat) (data : T) : T :=
  match j with
  | O => data
  | S j' => if Less I data j j' then siftDown I j' (Swap I data j j') else data
  end.

(** Its outer loop, [for i := a + 1; i < b; i++], with [k] iterations
    left. *)
Fixpoint insertionLoop {T} (I : Interface T) (k i : nat) (data : T) : T :=
  match k with
  | O => data
  | S k' => insertionLoop I k' (S i) (siftDown I i data)
  end.

(** [insertionSort(data, 0, data.Len())]: one way to meet the contract
    of [sort.Sort], and the one the library takes on short inputs. *)
Definition insertionSort {T} (I : Interface T) (data : T) : T :=
  insertionLoop I (Len I data - 1) 1 data.

End sort.

(* ===================================================================== *)
(** * cmd/buildah/images.go *)
(* ===================================================================== *)

Module images.

(** ** Size formatting *)

Definition suffixes : list string := ["B"; "KB"; "MB"; "GB"; "TB"].

(** The loop [for formattedSize >= 1000 && count < 4]: [fuel] bounds the
    number of iterations; [None] is a loop that needs more. *)
Fixpoint scale (fuel : nat) (formattedSize : spec_float) (count : Z)
  : option (spec_float * Z) :=
  if float64.geb formattedSize (float64.of_int 1000) && (count <? 4) then
    match fuel with
    | O => None
    | S f => scale f (float64.div formattedSize (float64.of_int 1000)) (count + 1)
    end
  else Some (formattedSize, count).

(** [formattedSize(size int64) string].  Four iterations are all the
    loop can make; see [scale_fuel]. *)
Definition formattedSize (size : Z) : result string :=
  match scale 4 (float64.of_int size) 0 with
  | Some (formattedSize, count) =>
      suffix ← index suffixes (Z.to_nat count);
      Ok (fmt.Sprintf_g 3 formattedSize +:+ " " +:+ suffix)
  | None => Panic "formattedSize: loop bound"
  end.

(** ** Predicates on one image *)

Definition matchesDangling (name dangling : string) : bool :=
  if String.eqb dangling "false" && negb (String.eqb name "") then true
  else if String.eqb dangling "true" && String.eqb name "" then true
  else false.

Definition matchesReadOnly (image : storage.Image) (readOnly : string) : bool :=
  if String.eqb readOnly "false" && negb (storage.ReadOnly image) then true
  else if String.eqb readOnly "true" && storage.ReadOnly image then true
  else false.

Definition matchesBeforeImage (image : storage.Image) (params : filterParams.t) : bool :=
  time.IsZero (storage.Created image)
  || time.Before (storage.Created image) (filterParams.beforeDate params).

Definition matchesSinceImage (image : storage.Image) (params : filterParams.t) : bool :=
  time.IsZero (storage.Created image)
  || time.After (storage.Created image) (filterParams.sinceDate params).

Definition matchesID (imageID argID : string) : bool :=
  strings.HasPrefix imageID argID.

Definition shortID (id : string) : string :=
  let idTruncLength := 12%nat in
  if (idTruncLength <? String.length id)%nat then strings.take idTruncLength id
  else id.

(** The loop [for key, value := range info.Labels] of [matchesLabel],
    over the entries in the order the iteration yields them; [false] at
    the end is the [return false] after the loop. *)
Fixpoint matchesLabel_loop (pair : list string) (entries : list (string * string)) : bool :=
  match entries with
  | [] => false
  | (key, value) :: rest =>
      if String.eqb key (pair !!! 0%nat) then
        if (length pair =? 2)%nat then
          if String.eqb value (pair !!! 1%nat) then true
          else matchesLabel_loop pair rest
        else false
      else matchesLabel_loop pair rest
  end.

(** ** Sorting the rows *)

Abbreviation imagesSorted := (list imageOutputParams.t).

Definition Len (a : imagesSorted) : nat := length a.

(** [a[i].CreatedAtRaw.After(a[j].CreatedAtRaw)]; the library calls it
    with indices in range. *)
Definition Less (a : imagesSorted) (i j : nat) : bool :=
  match a !! i, a !! j with
  | Some x, Some y =>
      time.After (imageOutputParams.CreatedAtRaw x) (imageOutputParams.CreatedAtRaw y)
  | _, _ => false
  end.

(** [a[i], a[j] = a[j], a[i]]. *)
Definition Swap (a : imagesSorted) (i j : nat) : imagesSorted :=
  match a !! i, a !! j with
  | Some x, Some y => <[j:=x]> (<[i:=y]> a)
  | _, _ => a
  end.

Definition imagesSorted_Interface : sort.Interface imagesSorted :=
  sort.mkInterface imagesSorted Len Less Swap.

(** The rows as [[]interface{}]: the same rows. *)
Definition imagesToGeneric (templParams : list imageOutputParams.t)
  : list imageOutputParams.t := templParams.

(** ** What the command hands to its output *)

Inductive output : Type :=
  | OutJSON (data : list jsonImage.t)
  | OutTable (rows : list imageOutputParams.t) (template : string).

(** The outcome of [ParseStoreReference], [NewImage] and [Inspect] on
    one image ID: the inspected information, or the error of the step
    that failed. *)
Inductive inspectOutcome : Type :=
  | Inspected (info : types.ImageInspectInfo)
  | ParseStoreReferenceFailed (err : string)
  | NewImageFailed (err : string)
  | InspectFailed (err : string).

(** The calls of [imagesCmd] that reach the store or the templates. *)
Inductive event : Type :=
  | EvGetStore
  | EvSystemContext
  | EvStoreImages
  | EvParseFilter
  | EvOutputImages.

#[global] Instance event_eq_dec : EqDecision event.
Proof. solve_decision. Defined.

(** A computation with the events it performed, in order. *)
Definition traced (A : Type) : Type := list event * result A.

Definition call {A} (ev : event) (r : result A) : traced A := ([ev], r).
Definition pure {A} (r : result A) : traced A := ([], r).

Definition tbind {A B} (m : traced A) (k : A → traced B) : traced B :=
  match m with
  | (t, Ok a) => let '(t', r) := k a in (t ++ t', r)
  | (t, Err e) => (t, Err e)
  | (t, Panic p) => (t, Panic p)
  end.

(** [errors.Wrapf(err, msg)]. *)
Definition Wrapf {A} (r : result A) (msg : string) : result A :=
  match r with
  | Err e => Err (msg +:+ ": " +:+ e)
  | other => other
  end.

Definition TAB : string := String (ascii_of_nat 9) EmptyString.
Definition DQUOTE : string := String (ascii_of_nat 34) EmptyString.

(** The verb [%q] on a string without characters that Go escapes. *)
Definition quoted (s : string) : string := DQUOTE +:+ s +:+ DQUOTE.

(** The rows and flags the loop of [outputImages] builds up:
    [found], [opts.readOnly], [imagesParams] and [jsonImages]. *)
Record loopState : Type := mkLoopState {
  found : bool;
  readOnlySeen : bool;
  imagesParams : imagesSorted;
  jsonImages : list jsonImage.t
}.

(** What the loop over [image.Names] builds up: [found],
    [filterMatched] and [imageReposAndTags]. *)
Record namesState : Type := mkNamesState {
  nfound : bool;
  filterMatched : bool;
  imageReposAndTags : list (string * string)
}.

Section Collaborators.

(** The store handle and the system context. *)
Context {Store SystemContext : Type}.

(** [reference.ParseNormalizedNamed]; [None] is an error. *)
Variable ParseNormalizedNamed : string → option reference.Named.
(** [is.Transport.ParseStoreReference], [NewImage], [Inspect]. *)
Variable inspectImage : Store → string → inspectOutcome.
(** The repository's [getDateAndSize]; its error is dropped. *)
Variable getDateAndSize : SystemContext → Store → storage.Image → time.Time * Z.
(** The repository's [imageIsParent]; its error is only logged. *)
Variable imageIsParent : SystemContext → Store → storage.Image → bool.
(** [units.HumanDuration(time.Since(t))]. *)
Variable HumanDurationSince : time.Time → string.
(** [sort.Sort]. *)
Variable sort_Sort : ∀ T : Type, sort.Interface T → T → T.
(** [formats.IDString]. *)
Variable IDString : string.
(** [buildahcli.VerifyFlagsArgsOrder]; [None] is a nil error. *)
Variable VerifyFlagsArgsOrder : list string → option string.
(** [getStore(c)], [parse.SystemContextFromOptions(c)], [store.Images()]. *)
Variable getStore : result Store.
Variable SystemContextFromOptions : result SystemContext.
Variable store_Images : Store → result (list storage.Image).

(** [splitArg[0]] and [splitArg[1]] are in range, since the pattern
    holds a colon when they are read (see [Split_colon]). *)
Definition matchesReference (imageName argName : string) : bool :=
  if String.eqb argName "" then true
  else if String.eqb imageName "" then false
  else
    match ParseNormalizedNamed imageName with
    | None => false
    | Some named =>
        if strings.Contains argName ":" then
          let splitArg := strings.Split argName ":" in
          match reference.Tag named with
          | Some tag =>
              (String.eqb (reference.Name named) (splitArg !!! 0%nat)
               || strings.HasSuffix (reference.Name named) ("/" +:+ splitArg !!! 0%nat))
              && String.eqb tag (splitArg !!! 1%nat)
          | None => false
          end
        else
          String.eqb (reference.Name named) argName
          || strings.HasSuffix (reference.Name named) ("/" +:+ argName)
    end.

(** [pair[0]] is in range, [SplitN] with a positive count giving at
    least one part; [pair[1]] is read under [len(pair) == 2]. *)
Definition matchesLabel (store : Store) (image : storage.Image) (label : string) : bool :=
  match inspectImage store (storage.ID image) with
  | Inspected info =>
      let pair := strings.SplitN label "=" 2 in
      matchesLabel_loop pair (map_to_list (types.Labels info))
  | _ => false
  end.

Definition matchesFilter (store : Store) (image : storage.Image) (name : string)
    (params : option filterParams.t) : bool :=
  match params with
  | None => true
  | Some params =>
      if negb (String.eqb (filterParams.dangling params) "")
         && negb (matchesDangling name (filterParams.dangling params)) then false
      else if negb (String.eqb (filterParams.label params) "")
         && negb (matchesLabel store image (filterParams.label params)) then false
      else if negb (String.eqb (filterParams.beforeImage params) "")
         && negb (matchesBeforeImage image params) then false
      else if negb (String.eqb (filterParams.sinceImage params) "")
         && negb (matchesSinceImage image params) then false
      else if negb (String.eqb (filterParams.referencePattern params) "")
         && negb (matchesReference name (filterParams.referencePattern params)) then false
      else if negb (String.eqb (filterParams.readOnly params) "")
         && negb (matchesReadOnly image (filterParams.readOnly params)) then false
      else true
  end.

Definition sortImagesOutput (imagesOutput : imagesSorted) : imagesSorted :=
  sort_Sort imagesSorted imagesSorted_Interface imagesOutput.

(** ** The filter parser *)

(** The body of the inner loop of [setFilterDate] once a name has
    matched: the creation date of the image's configuration. *)
Definition inspectCreated (store : Store) (image : storage.Image) : result time.Time :=
  match inspectImage store (storage.ID image) with
  | ParseStoreReferenceFailed err =>
      Err ("error parsing reference to image " +:+ quoted (storage.ID image) +:+ ": " +:+ err)
  | NewImageFailed err =>
      Err ("error reading image " +:+ quoted (storage.ID image) +:+ ": " +:+ err)
  | InspectFailed err =>
      Err ("error inspecting image " +:+ quoted (storage.ID image) +:+ ": " +:+ err)
  | Inspected info =>
      match types.Created info with
      | Some date => Ok date
      | None => Panic "invalid memory address or nil pointer dereference"
      end
  end.

(** [for _, name := range image.Names]: [None] when no name matches
    and the outer loop goes on. *)
Fixpoint setFilterDate_names (store : Store) (image : storage.Image)
    (names : list string) (imgName : string) : option (result time.Time) :=
  match names with
  | [] => None
  | name :: rest =>
      if matchesReference name imgName then Some (inspectCreated store image)
      else setFilterDate_names store image rest imgName
  end.

Fixpoint setFilterDate (store : Store) (images : list storage.Image)
    (imgName : string) : result time.Time :=
  match images with
  | [] => Err ("could not locate image " +:+ quoted imgName)
  | image :: rest =>
      match setFilterDate_names store image (storage.Names image) imgName with
      | Some r => r
      | None => setFilterDate store rest imgName
      end
  end.

Definition isErr {A} (r : result A) : bool :=
  match r with Err _ => true | _ => false end.

(** The body of [for _, param := range filterStrings]. *)
Definition parseFilter_param (store : Store) (images : list storage.Image)
    (params : filterParams.t) (param : string) : result filterParams.t :=
  let pair := strings.SplitN param "=" 2 in
  pair0 ← index pair 0;
  let key := strings.TrimSpace pair0 in
  let '(filterParams.mk dangling label beforeImage sinceImage beforeDate
          sinceDate referencePattern readOnly) := params in
  if String.eqb key "dangling" then
    pair1 ← index pair 1;
    if String.eqb pair1 "true" || String.eqb pair1 "false" then
      Ok (filterParams.mk pair1 label beforeImage sinceImage beforeDate
            sinceDate referencePattern readOnly)
    else Err ("invalid filter: '" +:+ pair0 +:+ "=[" +:+ pair1 +:+ "]'")
  else if String.eqb key "label" then
    pair1 ← index pair 1;
    Ok (filterParams.mk dangling pair1 beforeImage sinceImage beforeDate
          sinceDate referencePattern readOnly)
  else if String.eqb key "before" then
    pair1 ← index pair 1;
    match setFilterDate store images pair1 with
    | Ok date =>
        Ok (filterParams.mk dangling label pair1 sinceImage date
              sinceDate referencePattern readOnly)
    | Err _ => Err ("no such id: " +:+ pair0)
    | Panic p => Panic p
    end
  else if String.eqb key "since" then
    pair1 ← index pair 1;
    match setFilterDate store images pair1 with
    | Ok date =>
        Ok (filterParams.mk dangling label beforeImage pair1 beforeDate
              date referencePattern readOnly)
    | Err _ => Err ("no such id: " +:+ pair0)
    | Panic p => Panic p
    end
  else if String.eqb key "reference" then
    pair1 ← index pair 1;
    Ok (filterParams.mk dangling label beforeImage sinceImage beforeDate
          sinceDate pair1 readOnly)
  else if String.eqb key "readonly" then
    pair1 ← index pair 1;
    if String.eqb pair1 "true" || String.eqb pair1 "false" then
      Ok (filterParams.mk dangling label beforeImage sinceImage beforeDate
            sinceDate referencePattern pair1)
    else Err ("invalid filter: '" +:+ pair0 +:+ "=[" +:+ pair1 +:+ "]'")
  else Err ("invalid filter: '" +:+ pair0 +:+ "'").

Fixpoint parseFilter_loop (store : Store) (images : list storage.Image)
    (params : filterParams.t) (filterStrings : list string) : result filterParams.t :=
  match filterStrings with
  | [] => Ok params
  | param :: rest =>
      params' ← parseFilter_param store images params param;
      parseFilter_loop store images params' rest
  end.

Definition parseFilter (store : Store) (images : list storage.Image)
    (filter : string) : result filterParams.t :=
  let params := filterParams.new in
  let filterStrings := strings.Split filter "," in
  parseFilter_loop store images params filterStrings.

(** ** The header template *)

Definition outputHeader (opts : imageOptions.t) : string :=
  if negb (String.eqb (imageOptions.format opts) "") then
    strings.Replace (imageOptions.format opts) "\t" TAB (-1)
  else if imageOptions.quiet opts then IDString
  else
    let format :=
      "{{if .Name}}{{.Name}}{{else}}<none>{{end}}" +:+ TAB
      +:+ "{{if .Tag}}{{.Tag}}{{else}}<none>{{end}}" +:+ TAB in
    let format :=
      if negb (imageOptions.noHeading opts) then "table " +:+ format else format in
    let format :=
      if imageOptions.digests opts then format +:+ "{{.Digest}}" +:+ TAB else format in
    let format := format +:+ "{{.ID}}" +:+ TAB +:+ "{{.CreatedAt}}" +:+ TAB +:+ "{{.Size}}" in
    if imageOptions.readOnly opts then format +:+ TAB +:+ "{{.ReadOnly}}" else format.

(** ** The row projector *)

(** The body of [for _, name := range image.Names].  The block on
    [reference.Digested] is not there: it ends in
    [imageDigests = append(imageDigests)], which appends nothing. *)
Definition outputImages_name (store : Store) (image : storage.Image)
    (filters : option filterParams.t) (argName : string)
    (st : namesState) (name : string) : namesState :=
  if String.eqb name "" then st
  else
    match ParseNormalizedNamed name with
    | None => st
    | Some named =>
        if negb (matchesReference name argName) then st
        else
          let st := mkNamesState true (filterMatched st) (imageReposAndTags st) in
          if negb (matchesFilter store image name filters) then st
          else
            let tag := match reference.Tag named with Some t => t | None => EmptyString end in
            mkNamesState true true
              (imageReposAndTags st ++ [(reference.Name named, tag)])
    end.

(** The body of [for _, image := range images]; a [continue] is the
    state returned as it stands. *)
Definition outputImages_image (systemContext : SystemContext) (store : Store)
    (filters : option filterParams.t) (argName : string) (opts : imageOptions.t)
    (st : loopState) (image : storage.Image) : result loopState :=
  let readOnly := readOnlySeen st || storage.ReadOnly image in
  let createdTime := storage.Created image in
  let '(inspectedTime, size) := getDateAndSize systemContext store image in
  let createdTime :=
    if negb (time.IsZero inspectedTime) && negb (time.Equal createdTime inspectedTime)
    then inspectedTime else createdTime in
  let createdTime := time.Local createdTime in
  if negb (imageOptions.all opts) && (length (storage.Names image) =? 0)%nat
     && imageIsParent systemContext store image
  then Ok (mkLoopState (found st) readOnly (imagesParams st) (jsonImages st))
  else
    let imageID :=
      if imageOptions.truncate opts then shortID (storage.ID image)
      else "sha256:" +:+ storage.ID image in
    let imageDigests := storage.Digests image in
    let ns :=
      fold_left (outputImages_name store image filters argName)
        (storage.Names image) (mkNamesState (found st) false []) in
    let filterMatched :=
      filterMatched ns
      || ((length (storage.Names image) =? 0)%nat
          && matchesFilter store image "" filters) in
    if negb filterMatched
    then Ok (mkLoopState (nfound ns) readOnly (imagesParams st) (jsonImages st))
    else if imageOptions.json opts then
      sizeString ← formattedSize size;
      Ok (mkLoopState (nfound ns) readOnly (imagesParams st)
            (jsonImages st ++
             [jsonImage.mk (storage.ID image) (storage.Names image)
                (storage.Digest image) imageDigests
                (HumanDurationSince createdTime +:+ " ago") sizeString
                createdTime (storage.ReadOnly image)]))
    else
      let imageReposAndTags :=
        if (length (imageReposAndTags ns) =? 0)%nat then [(EmptyString, EmptyString)]
        else imageReposAndTags ns in
      let listed :=
        if imageOptions.quiet opts then take 1 imageReposAndTags
        else imageReposAndTags in
      sizeString ← formattedSize size;
      Ok (mkLoopState (nfound ns) readOnly
            (imagesParams st ++
             map (fun imageRepoAndTag : string * string =>
                    imageOutputParams.mk imageID imageRepoAndTag.1 imageRepoAndTag.2
                      (storage.Digest image) imageDigests
                      (HumanDurationSince createdTime +:+ " ago") sizeString
                      createdTime (storage.ReadOnly image))
                 listed)
            (jsonImages st)).

Fixpoint outputImages_loop (systemContext : SystemContext) (store : Store)
    (filters : option filterParams.t) (argName : string) (opts : imageOptions.t)
    (st : loopState) (images : list storage.Image) : result loopState :=
  match images with
  | [] => Ok st
  | image :: rest =>
      st' ← outputImages_image systemContext store filters argName opts st image;
      outputImages_loop systemContext store filters argName opts st' rest
  end.

Definition outputImages (systemContext : SystemContext) (store : Store)
    (images : list storage.Image) (filters : option filterParams.t)
    (argName : string) (opts : imageOptions.t) : result output :=
  st ← outputImages_loop systemContext store filters argName opts
         (mkLoopState false (imageOptions.readOnly opts) [] []) images;
  if negb (found st) && negb (String.eqb argName "") then
    Err ("No such image " +:+ argName)
  else if imageOptions.json opts then Ok (OutJSON (jsonImages st))
  else
    let opts' :=
      imageOptions.mk (imageOptions.all opts) (imageOptions.digests opts)
        (imageOptions.format opts) (imageOptions.json opts)
        (imageOptions.noHeading opts) (imageOptions.truncate opts)
        (imageOptions.quiet opts) (readOnlySeen st) in
    let imagesParams := sortImagesOutput (imagesParams st) in
    Ok (OutTable (imagesToGeneric imagesParams) (outputHeader opts')).

(** ** The command *)

(** [imagesCmd], with the calls that reach the store in its trace.  The
    rows and the template it hands to [formats.Writer], or the JSON
    entries it prints, are its result. *)

Definition imagesCmd (args : list string) (iopts : imageResults.t) : traced output :=
  let io := imageResults.imageOptions iopts in
  tbind (pure
    (if (0 <? length args)%nat then
       if imageOptions.all io then
         Err "when using the --all switch, you may not pass any images names or IDs"
       else
         match VerifyFlagsArgsOrder args with
         | Some err => Err err
         | None =>
             if (length args =? 1)%nat then index args 0
             else Err "'buildah images' requires at most 1 argument"
         end
     else Ok EmptyString)) (fun name =>
  tbind (call EvGetStore getStore) (fun store =>
  tbind (call EvSystemContext
           (Wrapf SystemContextFromOptions "error building system context"))
    (fun systemContext =>
  tbind (call EvStoreImages (Wrapf (store_Images store) "error reading images"))
    (fun images =>
  if imageOptions.quiet io && negb (String.eqb (imageOptions.format io) "") then
    pure (Err "quiet and format are mutually exclusive" : result output)
  else
    let opts :=
      imageOptions.mk (imageOptions.all io) (imageOptions.digests io)
        (imageOptions.format io) (imageOptions.json io)
        (imageOptions.noHeading io) (negb (imageOptions.truncate io))
        (imageOptions.quiet io) false in
    tbind
      (if negb (String.eqb (imageResults.filter iopts) "") then
         call EvParseFilter
           (Wrapf (Some <$> parseFilter store images (imageResults.filter iopts))
              "error parsing filter")
       else pure (Ok (None : option filterParams.t)))
      (fun params =>
    call EvOutputImages
      (outputImages systemContext store images params name opts)))))).

End Collaborators.

End images.

(* ===================================================================== *)
(** * Concrete collaborators and inputs, for the examples *)
(* ===================================================================== *)

Module samples.

(** The last position of [c] in [s]. *)
Fixpoint lastIndex (c : ascii) (s : string) : option nat :=
  match s with
  | EmptyString => None
  | String c' s' =>
      match lastIndex c s' with
      | Some i => Some (S i)
      | None => if Ascii.eqb c c' then Some 0%nat else None
      end
  end.

(** A small reference parser: the domain is split off and defaulted
    the way [splitDockerDomain] does it, and a tag is what follows a
    colon in the last path component.  Digests and the validation of
    characters are left out; a name with [@] is refused. *)
Definition parseReference (s : string) : option reference.Named :=
  if strings.Contains s "@" || String.eqb s "" then None
  else
    let '(domain, remainder) :=
      match strings.Index s "/" with
      | None => ("docker.io", s)
      | Some i =>
          let head := strings.take i s in
          if negb (strings.Contains head "." || strings.Contains head ":")
             && negb (String.eqb head "localhost")
          then ("docker.io", s)
          else (head, strings.drop (S i) s)
      end in
    let domain := if String.eqb domain "index.docker.io" then "docker.io" else domain in
    let remainder :=
      if String.eqb domain "docker.io" && negb (strings.Contains remainder "/")
      then "library/" +:+ remainder else remainder in
    let lastSlash := match lastIndex "/" remainder with Some i => S i | None => O end in
    let tail := strings.drop lastSlash remainder in
    match strings.Index tail ":" with
    | Some j =>
        Some (reference.mkNamed
                (domain +:+ "/" +:+ strings.take (lastSlash + j) remainder)
                (Some (strings.drop (S j) tail)) None)
    | None => Some (reference.mkNamed (domain +:+ "/" +:+ remainder) None None)
    end.

(** A store of three images: a tagged one, an untagged parent of it,
    and an untagged image that is nobody's parent. *)
Definition t2020 : time.Time := time.mkTime 63713520000 0.
Definition t2021 : time.Time := time.mkTime 63745142400 0.
Definition t2022 : time.Time := time.mkTime 63776678400 500.

Definition tagged : storage.Image :=
  storage.mkImage "aaaaaaaaaaaaaaaa" "sha256:d1" ["sha256:d1"]
    ["registry.example.com/myrepo/image:v1"] t2022 false.
Definition parent : storage.Image :=
  storage.mkImage "bbbbbbbbbbbbbbbb" "sha256:d2" ["sha256:d2"] [] t2021 false.
Definition orphan : storage.Image :=
  storage.mkImage "cccccccccccccccc" "sha256:d3" ["sha256:d3"] [] t2020 false.

Definition theImages : list storage.Image := [tagged; parent; orphan].

Definition labelsOf (id : string) : gmap string string :=
  if String.eqb id "aaaaaaaaaaaaaaaa"
  then {[ "maintainer" := "alice"; "version" := "1" ]}
  else ∅.

Definition createdOf (id : string) : time.Time :=
  if String.eqb id "aaaaaaaaaaaaaaaa" then t2022
  else if String.eqb id "bbbbbbbbbbbbbbbb" then t2021 else t2020.

Definition inspectImage (store : unit) (id : string) : images.inspectOutcome :=
  images.Inspected (types.mkImageInspectInfo (Some (createdOf id)) (labelsOf id)).

Definition getDateAndSize (sc store : unit) (image : storage.Image) : time.Time * Z :=
  (createdOf (storage.ID image), 1500000).

Definition imageIsParent (sc store : unit) (image : storage.Image) : bool :=
  String.eqb (storage.ID image) "bbbbbbbbbbbbbbbb".

Definition HumanDurationSince (t : time.Time) : string := "2 weeks".

Definition IDString : string := "{{.ID}}".

Definition VerifyFlagsArgsOrder (args : list string) : option string :=
  match filter (fun a : string => strings.HasPrefix a "-") args with
  | [] => None
  | a :: _ => Some ("No options (" +:+ a +:+ ") can be specified after the image or container name")
  end.

Definition getStore : result unit := Ok tt.
Definition SystemContextFromOptions : result unit := Ok tt.
Definition store_Images (store : unit) : result (list storage.Image) := Ok theImages.

(** A store that cannot be opened. *)
Definition noStore : result unit := Err "unable to open the store".

Definition sort_Sort : ∀ T : Type, sort.Interface T → T → T := @sort.insertionSort.

Definition matchesReference := images.matchesReference parseReference.
Definition matchesLabel := images.matchesLabel inspectImage.
Definition matchesFilter := images.matchesFilter parseReference inspectImage.
Definition parseFilter := images.parseFilter parseReference inspectImage.
Definition outputImages_image :=
  images.outputImages_image parseReference inspectImage getDateAndSize imageIsParent
    HumanDurationSince.
Definition outputImages :=
  images.outputImages parseReference inspectImage getDateAndSize imageIsParent
    HumanDurationSince sort_Sort IDString.
Definition imagesCmd :=
  images.imagesCmd parseReference inspectImage getDateAndSize imageIsParent
    HumanDurationSince sort_Sort IDString VerifyFlagsArgsOrder
    getStore SystemContextFromOptions store_Images.
Definition imagesCmd_noStore :=
  images.imagesCmd parseReference inspectImage getDateAndSize imageIsParent
    HumanDurationSince sort_Sort IDString VerifyFlagsArgsOrder
    noStore SystemContextFromOptions store_Images.

Definition noOptions : imageOptions.t :=
  imageOptions.mk false false EmptyString false false false false false.
Definition quietFormat : imageResults.t :=
  imageResults.mk
    (imageOptions.mk false false "{{.ID}}" false false false true false) EmptyString.
Definition withFilter (f : string) : imageResults.t := imageResults.mk noOptions f.

End samples.

(** Further inputs for the examples. *)

Definition sampleUIDMap : list idtools.IDMap :=
  [idtools.mkIDMap 0 100000 65536; idtools.mkIDMap 65536 4294901760 1].
Definition sampleGIDMap : list idtools.IDMap := [idtools.mkIDMap 0 1000 1].

Definition zeroTimeImage : storage.Image :=
  storage.mkImage "dddddddddddddddd" "sha256:d4" [] [] time.zero false.
Definition paramsAt (t : time.Time) : filterParams.t :=
  filterParams.mk EmptyString EmptyString "ref" "ref" t t EmptyString EmptyString.

(* ===================================================================== *)
(** * Notions used in the statements *)
(* ===================================================================== *)

(** The pattern's repository part: the text before the first colon. *)
Definition patternRepository (argName : string) : string :=
  match strings.Index argName ":" with
  | Some m => strings.take m argName
  | None => argName
  end.

(** The pattern's tag part: the text after the first colon, up to the
    next colon if there is one. *)
Definition patternTag (argName : string) : string :=
  match strings.Index argName ":" with
  | Some m =>
      let rest := strings.drop (S m) argName in
      match strings.Index rest ":" with
      | Some k => strings.take k rest
      | None => rest
      end
  | None => EmptyString
  end.


(** The value after [n] divisions by 1000 in [float64]. *)
Definition divided (n : nat) (v : spec_float) : spec_float :=
  Nat.iter n (fun x => float64.div x (float64.of_int 1000)) v.


(** The argument checks of [imagesCmd] let the arguments through: there
    are none, or there is one, without [--all] and in an accepted
    position. *)
Definition argsAccepted (VerifyFlagsArgsOrder : list string → option string)
    (args : list string) (iopts : imageResults.t) : Prop :=
  args = []
  ∨ (imageOptions.all (imageResults.imageOptions iopts) = false
     ∧ VerifyFlagsArgsOrder args = None
     ∧ length args = 1%nat).

(** The state of the loop of [outputImages] before the first image. *)
Definition emptyState : images.loopState := images.mkLoopState false false [] [].

(** The creation timestamp of a row, and the order [sort.Sort] is asked
    to establish: a row may precede another when the other is not
    created after it. *)
Definition rowTime (x : imageOutputParams.t) : time.Time :=
  imageOutputParams.CreatedAtRaw x.

Definition notOlder (x y : imageOutputParams.t) : Prop :=
  time.After (rowTime y) (rowTime x) = false.

(** Where the inner loop of the insertion sort leaves [x] when the
    elements before it, last first, are [before]. *)
Fixpoint sifted (x : imageOutputParams.t) (before : list imageOutputParams.t)
  : list imageOutputParams.t :=
  match before with
  | [] => [x]
  | y :: rest =>
      if time.After (rowTime x) (rowTime y) then sifted x rest ++ [y]
      else rev (y :: rest) ++ [x]
  end.

(** Rows for the examples: three images listed oldest first. *)
Definition sampleRow (id : string) (t : time.Time) : imageOutputParams.t :=
  imageOutputParams.mk id "repo" "latest" "sha256:d" [] "2 weeks ago" "1.5 MB" t false.

Definition sampleRows : list imageOutputParams.t :=
  [sampleRow "a" samples.t2020; sampleRow "b" samples.t2022;
   sampleRow "c" samples.t2021].

(* ===================================================================== *)
(** * util.go: the other helpers *)
(* ===================================================================== *)

Module v1.
(** [v1.History]; [Created] is a pointer to a timestamp: an address in
    the heap of timestamps, [None] for nil. *)
Record History : Type := mkHistory {
  Created : option positive;
  CreatedBy : string;
  Author : string;
  Comment : string;
  EmptyLayer : bool
}.
End v1.

Module sysregistriesv2.
(** [sysregistriesv2.Registry], the field the helpers read. *)
Record Registry : Type := mkRegistry { Blocked : bool }.
End sysregistriesv2.

Module ImageReference.
(** A non-nil [types.ImageReference], as the helpers see it: the name
    of its transport ([None] for a nil [Transport()]) and its
    [DockerReference()] ([None] for nil). *)
Record t : Type := mk {
  Transport : option string;
  DockerReference : option reference.Named
}.
End ImageReference.

Module buildah.

(** [copy(dst, src)] on slices: the first [min(len(dst), len(src))]
    elements of [src] replace those of [dst]. *)
Definition copy {A : Type} (dst src : list A) : list A :=
  take (length dst) src ++ drop (length src) dst.

Definition copyStringSlice (s : list string) : list string :=
  let t := replicate (length s) EmptyString in
  copy t s.

(** The loop [for k, v := range m { n[k] = v }] of
    [copyStringStringMap], over the entries in the order the iteration
    yields them. *)
Definition copyStringStringMap_range (entries : list (string * string))
  : gmap string string :=
  fold_left (fun n kv => <[kv.1 := kv.2]> n) entries ∅.

Definition copyStringStringMap (m : gmap string string) : gmap string string :=
  copyStringStringMap_range (map_to_list m).

(** The heap of timestamps that [*time.Time] pointers address. *)
Abbreviation heap := (gmap positive time.Time).

(** The loop of [copyHistory]: each entry is appended with its fields,
    and with a pointer to a new variable holding the timestamp when its
    [Created] is not nil.  Reading through a pointer that addresses
    nothing does not happen in Go; it is a [Panic] here. *)
Fixpoint copyHistory_loop (mem : heap) (history h : list v1.History)
  : result (heap * list v1.History) :=
  match history with
  | [] => Ok (mem, h)
  | entry :: rest =>
      match v1.Created entry with
      | None =>
          copyHistory_loop mem rest
            (h ++ [v1.mkHistory None (v1.CreatedBy entry) (v1.Author entry)
                     (v1.Comment entry) (v1.EmptyLayer entry)])
      | Some created =>
          match mem !! created with
          | None => Panic "invalid memory address or nil pointer dereference"
          | Some timestamp =>
              let p := fresh (dom mem) in
              copyHistory_loop (<[p := timestamp]> mem) rest
                (h ++ [v1.mkHistory (Some p) (v1.CreatedBy entry) (v1.Author entry)
                         (v1.Comment entry) (v1.EmptyLayer entry)])
          end
      end
  end.

(** [copyHistory]: [None] is the nil slice it returns for an empty
    history. *)
Definition copyHistory (mem : heap) (history : list v1.History)
  : result (heap * option (list v1.History)) :=
  if (length history =? 0)%nat then Ok (mem, None)
  else
    '(mem', h) ← copyHistory_loop mem history [];
    Ok (mem', Some h).

Section Registries.

Context {SystemContext : Type}.
(** [sysregistriesv2.FindRegistry]; [Ok None] is a nil registry. *)
Variable FindRegistry : SystemContext → string → result (option sysregistriesv2.Registry).
(** [sysregistries.RegistriesConfPath]. *)
Variable RegistriesConfPath : SystemContext → string.
(** [reference.Domain]. *)
Variable Domain : reference.Named → string.

(** A result [(bool, error)]: [Ok b] has a nil error; with an error the
    boolean is [false]. *)
Definition isRegistryBlocked (registry : string) (sc : SystemContext) : result bool :=
  match FindRegistry sc registry with
  | Err err =>
      Err ("unable to parse the registries configuration ("
           +:+ RegistriesConfPath sc +:+ "): " +:+ err)
  | Panic p => Panic p
  | Ok (Some reginfo) => Ok (sysregistriesv2.Blocked reginfo)
  | Ok None => Ok false
  end.

Definition isReferenceSomething (ref : option ImageReference.t) (sc : SystemContext)
    (what : string → SystemContext → result bool) : result bool :=
  match ref with
  | Some r =>
      match ImageReference.DockerReference r with
      | Some named =>
          let domain := Domain named in
          if negb (String.eqb domain "") then what domain sc else Ok false
      | None => Ok false
      end
  | None => Ok false
  end.

Definition isReferenceBlocked (ref : option ImageReference.t) (sc : SystemContext)
  : result bool :=
  match ref with
  | Some r =>
      match ImageReference.Transport r with
      | Some name =>
          if String.eqb name "docker"
          then isReferenceSomething ref sc isRegistryBlocked
          else Ok false
      | None => Ok false
      end
  | None => Ok false
  end.

End Registries.

(** What [OpenBuilder] gives for a container: the builder's process
    label, an error that [os.IsNotExist] recognises, or another error. *)
Inductive openOutcome : Type :=
  | Opened (ProcessLabel : string)
  | NotExist (err : string)
  | OpenFailed (err : string).

Section SELinux.

(** The store handle and the state of the label reservations. *)
Context {Store Reserved : Type}.
(** [selinux.GetEnabled()]. *)
Variable GetEnabled : bool.
(** [store.Containers()], as the IDs of the containers. *)
Variable store_Containers : Store → result (list string).
(** [OpenBuilder(store, id)]. *)
Variable OpenBuilder : Store → string → openOutcome.
(** [label.ReserveLabel]: the reservations after the call, and its
    error ([None] for nil). *)
Variable ReserveLabel : Reserved → string → Reserved * option string.

(** The loop [for _, c := range containers]. *)
Fixpoint ReserveSELinuxLabels_loop (store : Store) (id : string)
    (reserved : Reserved) (containers : list string) : Reserved * result unit :=
  match containers with
  | [] => (reserved, Ok tt)
  | c :: rest =>
      if String.eqb id c then ReserveSELinuxLabels_loop store id reserved rest
      else
        match OpenBuilder store c with
        | NotExist _ => ReserveSELinuxLabels_loop store id reserved rest
        | OpenFailed err => (reserved, Err err)
        | Opened ProcessLabel =>
            match ReserveLabel reserved ProcessLabel with
            | (reserved', Some err) =>
                (reserved',
                 Err ("error reserving SELinux label " +:+ images.quoted ProcessLabel
                      +:+ ": " +:+ err))
            | (reserved', None) => ReserveSELinuxLabels_loop store id reserved' rest
            end
        end
  end.

Definition ReserveSELinuxLabels (store : Store) (id : string) (reserved : Reserved)
  : Reserved * result unit :=
  if GetEnabled then
    match store_Containers store with
    | Err err => (reserved, Err ("error getting list of containers: " +:+ err))
    | Panic p => (reserved, Panic p)
    | Ok containers => ReserveSELinuxLabels_loop store id reserved containers
    end
  else (reserved, Ok tt).

End SELinux.

End buildah.

(* ===================================================================== *)
(** * Notions used in the statements about util.go *)
(* ===================================================================== *)

(** The conversion of one ID map, in each direction. *)
Definition toRuntime (m : idtools.IDMap) : rspec.LinuxIDMapping :=
  {| rspec.HostID := util.uint32 (idtools.HostID m);
     rspec.ContainerID := util.uint32 (idtools.ContainerID m);
     rspec.Size := util.uint32 (idtools.Size m) |}.

Definition toStorage (intSize : Z) (m : rspec.LinuxIDMapping) : idtools.IDMap :=
  {| idtools.HostID := util.int intSize (rspec.HostID m);
     idtools.ContainerID := util.int intSize (rspec.ContainerID m);
     idtools.Size := util.int intSize (rspec.Size m) |}.

(** The addresses the entries of a history point to. *)
Definition pointers (history : list v1.History) : list positive :=
  omap v1.Created history.

(** [e'] is a copy of [e] made between the heaps [mem] and [mem']: the
    same fields, and a timestamp of its own, at an address that [mem]
    did not have, holding what [e] points to. *)
Definition copied (mem mem' : buildah.heap) (e e' : v1.History) : Prop :=
  v1.CreatedBy e' = v1.CreatedBy e
  ∧ v1.Author e' = v1.Author e
  ∧ v1.Comment e' = v1.Comment e
  ∧ v1.EmptyLayer e' = v1.EmptyLayer e
  ∧ match v1.Created e with
    | None => v1.Created e' = None
    | Some p => ∃ q, v1.Created e' = Some q ∧ (q ∉ dom mem) ∧ mem' !! q = mem !! p
    end.

(** Every pointer of the history addresses a timestamp. *)
Definition pointersValid (mem : buildah.heap) (history : list v1.History) : Prop :=
  ∀ p, p ∈ pointers history → is_Some (mem !! p).



(** Inputs for the examples. *)
Definition sampleHeap : buildah.heap := {[ 1%positive := samples.t2020; 2%positive := samples.t2021 ]}.
Definition sampleHistory : list v1.History :=
  [v1.mkHistory (Some 1%positive) "RUN make" "alice" "" false;
   v1.mkHistory None "ENV A=1" "alice" "" true;
   v1.mkHistory (Some 2%positive) "COPY . /src" "bob" "" false].

Definition sampleOpenBuilder (store : unit) (c : string) : buildah.openOutcome :=
  if String.eqb c "gone" then buildah.NotExist "no such file or directory"
  else buildah.Opened ("system_u:system_r:container_t:s0:" +:+ c).

Definition sampleReserveLabel (reserved : list string) (l : string)
  : list string * option string :=
  if bool_decide (l ∈ reserved) then (reserved, Some "label already reserved")
  else (reserved ++ [l], None).

(* ===================================================================== *)
(** * Notions used in the statements about images.go *)
(* ===================================================================== *)



(** A name of an image that the loop over the names does not skip and
    that matches the name argument. *)
Definition nameMatches (ParseNormalizedNamed : string → option reference.Named)
    (argName name : string) : bool :=
  negb (String.eqb name EmptyString)
  && match ParseNormalizedNamed name with Some _ => true | None => false end
  && images.matchesReference ParseNormalizedNamed name argName.

(** A pair of repository and tag that the loop over the names appends
    comes from a name that matches the argument and passes the filter. *)
Definition repoTagOf {Store : Type}
    (ParseNormalizedNamed : string → option reference.Named)
    (inspectImage : Store → string → images.inspectOutcome)
    (store : Store) (image : storage.Image)
    (filters : option filterParams.t) (argName : string) (names : list string)
    (rt : string * string) : Prop :=
  ∃ name named,
    name ∈ names
    ∧ ParseNormalizedNamed name = Some named
    ∧ rt = (reference.Name named,
            match reference.Tag named with Some t => t | None => EmptyString end)
    ∧ images.matchesReference ParseNormalizedNamed name argName = true
    ∧ images.matchesFilter ParseNormalizedNamed inspectImage store image name filters
      = true.

(** The identifier a row shows for an image. *)
Definition displayID (opts : imageOptions.t) (image : storage.Image) : string :=
  if imageOptions.truncate opts then images.shortID (storage.ID image)
  else "sha256:" +:+ storage.ID image.

(** [row] is a row of [image]: it carries the image's identifier,
    digests and read-only flag, and either the repository and tag of a
    name of the image that matches the name argument and passes the
    filter, or an empty name and tag, the image having no names and
    passing the filter with the empty display name. *)
Definition rowOf {Store : Type}
    (ParseNormalizedNamed : string → option reference.Named)
    (inspectImage : Store → string → images.inspectOutcome)
    (store : Store) (filters : option filterParams.t) (argName : string)
    (opts : imageOptions.t) (image : storage.Image) (row : imageOutputParams.t) : Prop :=
  imageOutputParams.ID row = displayID opts image
  ∧ imageOutputParams.Digest row = storage.Digest image
  ∧ imageOutputParams.Digests row = storage.Digests image
  ∧ imageOutputParams.ReadOnly row = storage.ReadOnly image
  ∧ ((imageOutputParams.Name row = EmptyString
      ∧ imageOutputParams.Tag row = EmptyString
      ∧ storage.Names image = []
      ∧ images.matchesFilter ParseNormalizedNamed inspectImage store image
          EmptyString filters = true)
     ∨ (∃ name named,
          name ∈ storage.Names image
          ∧ ParseNormalizedNamed name = Some named
          ∧ imageOutputParams.Name row = reference.Name named
          ∧ imageOutputParams.Tag row
            = match reference.Tag named with Some t => t | None => EmptyString end
          ∧ images.matchesReference ParseNormalizedNamed name argName = true
          ∧ images.matchesFilter ParseNormalizedNamed inspectImage store image
              name filters = true)).

(** The creation time a row or an entry shows: that of the image's
    configuration, and that of the image record when the configuration
    has none. *)
Definition shownTime (inspectedTime recordTime : time.Time) : time.Time :=
  if time.IsZero inspectedTime then recordTime else inspectedTime.

(** The creation time, its rendering and the size that a row or an
    entry of [image] carries. *)
Definition dataOf {Store SystemContext : Type}
    (getDateAndSize : SystemContext → Store → storage.Image → time.Time * Z)
    (HumanDurationSince : time.Time → string)
    (systemContext : SystemContext) (store : Store) (image : storage.Image)
    (createdAtRaw : time.Time) (createdAt size : string) : Prop :=
  createdAtRaw
  = shownTime (getDateAndSize systemContext store image).1 (storage.Created image)
  ∧ createdAt = HumanDurationSince createdAtRaw +:+ " ago"
  ∧ images.formattedSize (getDateAndSize systemContext store image).2 = Ok size.

(** [j] is the JSON entry of [image]: the untruncated identifier, all
    the names, the digests, the read-only flag, and the time and size
    above. *)
Definition entryOf {Store SystemContext : Type}
    (getDateAndSize : SystemContext → Store → storage.Image → time.Time * Z)
    (HumanDurationSince : time.Time → string)
    (systemContext : SystemContext) (store : Store) (image : storage.Image)
    (j : jsonImage.t) : Prop :=
  jsonImage.ID j = storage.ID image
  ∧ jsonImage.Names j = storage.Names image
  ∧ jsonImage.Digest j = storage.Digest image
  ∧ jsonImage.Digests j = storage.Digests image
  ∧ jsonImage.ReadOnly j = storage.ReadOnly image
  ∧ dataOf getDateAndSize HumanDurationSince systemContext store image
      (jsonImage.CreatedAtRaw j) (jsonImage.CreatedAt j) (jsonImage.Size j).

(** The options with the read-only flag replaced. *)
Definition withReadOnly (opts : imageOptions.t) (readOnly : bool) : imageOptions.t :=
  imageOptions.mk (imageOptions.all opts) (imageOptions.digests opts)
    (imageOptions.format opts) (imageOptions.json opts)
    (imageOptions.noHeading opts) (imageOptions.truncate opts)
    (imageOptions.quiet opts) readOnly.

(** The options [imagesCmd] passes on: the flags as given, with
    [--no-trunc] turned into [truncate]. *)
Definition passedOptions (iopts : imageResults.t) : imageOptions.t :=
  let io := imageResults.imageOptions iopts in
  imageOptions.mk (imageOptions.all io) (imageOptions.digests io)
    (imageOptions.format io) (imageOptions.json io)
    (imageOptions.noHeading io) (negb (imageOptions.truncate io))
    (imageOptions.quiet io) false.

(** Some name of some image matches the name argument. *)
Definition anyNameMatches (ParseNormalizedNamed : string → option reference.Named)
    (argName : string) (imgs : list storage.Image) : bool :=
  existsb (fun image =>
             existsb (nameMatches ParseNormalizedNamed argName) (storage.Names image))
    imgs.

(** The most rows the images can give: one per name, one for an image
    without names. *)
Definition rowsBound (imgs : list storage.Image) : nat :=
  sum_list_with (fun image => Nat.max 1 (length (storage.Names image))) imgs.

(* ===================================================================== *)
(** * Properties of the ID-map conversions *)
(* ===================================================================== *)

Lemma fold_left_snoc_map {A B : Type} (f : A → B) (l : list A) (acc : list B) :
  fold_left (fun acc m => acc ++ [f m]) l acc = acc ++ map f l.
Proof.
  revert acc. induction l as [|x l IH]; intros acc; simpl.
  - by rewrite app_nil_r.
  - rewrite IH. by rewrite <- app_assoc.
Qed.

Lemma int_uint32_id (intSize x : Z) :
  intSize = 32 ∨ intSize = 64 → util.fits32 intSize x →
  util.int intSize (util.uint32 x) = x.
Proof.
  unfold util.fits32, util.is_int, util.int, util.uint32.
  intros [-> | ->] [Hint Hx]; simpl in *;
    rewrite (Z.mod_small x) by lia; rewrite Z.mod_small; lia.
Qed.

Lemma uint32_int_id (intSize u : Z) :
  intSize = 32 ∨ intSize = 64 → util.is_uint32 u →
  util.uint32 (util.int intSize u) = u.
Proof.
  unfold util.is_uint32, util.int, util.uint32.
  intros [-> | ->] Hu; simpl in *.
  - Z.div_mod_to_equations. lia.
  - rewrite (Z.mod_small (u + _)) by lia. rewrite Z.mod_small; lia.
Qed.

Lemma map_id_on {A : Type} (f : A → A) (P : A → Prop) (l : list A) :
  (∀ x, P x → f x = x) → Forall P l → map f l = l.
Proof.
  intros Hf. induction 1 as [|x l Hx _ IH]; simpl; [done|].
  by rewrite Hf, IH.
Qed.

(** C10. On ID maps whose three fields are non-negative and fit in 32
    bits, converting to the runtime form and back gives the lists the
    conversion started from; and on well-formed runtime maps, converting
    to the storage form and back does the same. *)
Theorem convertIDMaps_roundtrip (intSize : Z) :
  intSize = 32 ∨ intSize = 64 →
  (∀ UIDMap GIDMap : list idtools.IDMap,
     Forall (util.IDMap_fits32 intSize) UIDMap →
     Forall (util.IDMap_fits32 intSize) GIDMap →
     util.convertRuntimeIDMaps intSize
       (util.convertStorageIDMaps UIDMap GIDMap).1
       (util.convertStorageIDMaps UIDMap GIDMap).2 = (UIDMap, GIDMap))
  ∧ (∀ UIDMap GIDMap : list rspec.LinuxIDMapping,
     Forall util.LinuxIDMapping_wf UIDMap →
     Forall util.LinuxIDMapping_wf GIDMap →
     util.convertStorageIDMaps
       (util.convertRuntimeIDMaps intSize UIDMap GIDMap).1
       (util.convertRuntimeIDMaps intSize UIDMap GIDMap).2 = (UIDMap, GIDMap)).
Proof.
  intros Hsize. split; intros U G HU HG;
    unfold util.convertRuntimeIDMaps, util.convertStorageIDMaps; simpl;
    rewrite !fold_left_snoc_map; simpl; rewrite !map_map.
  - f_equal; (eapply map_id_on; [|eassumption]);
      intros [c h s] (Hh & Hc & Hs); simpl in *;
      by rewrite !int_uint32_id.
  - f_equal; (eapply map_id_on; [|eassumption]);
      intros [h c s] (Hh & Hc & Hs); simpl in *;
      by rewrite !uint32_int_id.
Qed.

Lemma convertIDMaps_roundtrip_witness :
  util.convertRuntimeIDMaps 64
    (util.convertStorageIDMaps sampleUIDMap sampleGIDMap).1
    (util.convertStorageIDMaps sampleUIDMap sampleGIDMap).2
  = (sampleUIDMap, sampleGIDMap).
Proof.
  apply (proj1 (convertIDMaps_roundtrip 64 (or_intror eq_refl)));
    repeat constructor; simpl; lia.
Defined.

(** Outside the domain the round trip loses the value: a negative ID
    comes back as a large positive one. *)
Example convertIDMaps_negative :
  util.convertRuntimeIDMaps 64
    (util.convertStorageIDMaps [idtools.mkIDMap (-1) 0 1] []).1 []
  = ([idtools.mkIDMap 4294967295 0 1], []).
Proof. reflexivity. Qed.

(* ===================================================================== *)
(** * Properties of the predicates *)
(* ===================================================================== *)

Lemma time_Before_lt (t u : time.Time) : time.Before t u = true ↔ time.lt t u.
Proof. unfold time.Before, time.lt. destruct t, u; simpl. lia. Qed.

Lemma time_After_lt (t u : time.Time) : time.After t u = true ↔ time.lt u t.
Proof. unfold time.After, time.lt. destruct t, u; simpl. lia. Qed.

Lemma time_IsZero_zero (t : time.Time) : time.IsZero t = true ↔ t = time.zero.
Proof.
  unfold time.IsZero, time.zero. destruct t as [s n]; simpl. split.
  - intros H. f_equal; lia.
  - intros [= -> ->]. done.
Qed.

(** C7. An image whose creation time is the zero time passes both the
    [before] and the [since] check whatever the reference timestamp; for
    any other image [before] holds exactly when the creation time is
    strictly earlier than the reference timestamp, and [since] exactly
    when it is strictly later. *)
Theorem matchesBeforeSince_spec (image : storage.Image) (params : filterParams.t) :
  (time.IsZero (storage.Created image) = true →
     images.matchesBeforeImage image params = true
     ∧ images.matchesSinceImage image params = true)
  ∧ (time.IsZero (storage.Created image) = false →
     (images.matchesBeforeImage image params = true
        ↔ time.lt (storage.Created image) (filterParams.beforeDate params))
     ∧ (images.matchesSinceImage image params = true
        ↔ time.lt (filterParams.sinceDate params) (storage.Created image))).
Proof.
  unfold images.matchesBeforeImage, images.matchesSinceImage. split.
  - intros ->. done.
  - intros ->. simpl. split; [apply time_Before_lt | apply time_After_lt].
Qed.

Lemma matchesBeforeSince_spec_witness :
  (images.matchesBeforeImage zeroTimeImage (paramsAt samples.t2021) = true
   ∧ images.matchesSinceImage zeroTimeImage (paramsAt samples.t2021) = true)
  ∧ (images.matchesBeforeImage samples.orphan (paramsAt samples.t2021) = true
       ↔ time.lt samples.t2020 samples.t2021)
  ∧ (images.matchesSinceImage samples.orphan (paramsAt samples.t2021) = true
       ↔ time.lt samples.t2021 samples.t2020).
Proof.
  split.
  - apply (proj1 (matchesBeforeSince_spec zeroTimeImage (paramsAt samples.t2021))).
    reflexivity.
  - apply (proj2 (matchesBeforeSince_spec samples.orphan (paramsAt samples.t2021))).
    reflexivity.
Defined.

(* ===================================================================== *)
(** * Facts about the [strings] functions *)
(* ===================================================================== *)




Lemma str_drop_length (n : nat) (s : string) :
  String.length (strings.drop n s) = (String.length s - n)%nat.
Proof. revert s. induction n as [|n IH]; intros [|c s]; simpl; try done. Qed.

Lemma str_prefix_length (p s : string) :
  String.prefix p s = true → (String.length p <= String.length s)%nat.
Proof.
  revert s. induction p as [|c p IH]; intros [|c' s]; simpl; try done; try lia.
  destruct (ascii_dec c c'); [|done]. intros H. apply IH in H. lia.
Qed.

Lemma str_take_app (s t : string) : strings.take (String.length s) (s +:+ t) = s.
Proof.
  induction s as [|c s IH]; [by destruct t|].
  change (String c (strings.take (String.length s) (s +:+ t)) = String c s).
  by rewrite IH.
Qed.

Lemma str_drop_app_char (s t : string) (c : ascii) :
  strings.drop (String.length s + String.length (String c EmptyString))
    (s +:+ String c t) = t.
Proof.
  induction s as [|a s IH]; [by destruct t|]. exact IH.
Qed.


Lemma Index_eq (s sep : string) :
  strings.Index s sep
  = if String.prefix sep s then Some 0%nat
    else match s with
         | EmptyString => None
         | String _ s' => S <$> strings.Index s' sep
         end.
Proof. by destruct s. Qed.

Lemma Index_bound (s sep : string) (m : nat) :
  strings.Index s sep = Some m → (m + String.length sep <= String.length s)%nat.
Proof.
  revert m. induction s as [|c s IH]; intros m; rewrite Index_eq.
  - destruct (String.prefix sep EmptyString) eqn:Hp; [|done].
    intros [= <-]. apply str_prefix_length in Hp. simpl in *. lia.
  - destruct (String.prefix sep (String c s)) eqn:Hp.
    + intros [= <-]. apply str_prefix_length in Hp. simpl in *. lia.
    + destruct (strings.Index s sep) as [k|] eqn:Hk; simpl; [|done].
      intros [= <-]. specialize (IH k eq_refl). lia.
Qed.

Lemma prefix_char (c a : ascii) (s : string) :
  String.prefix (String c EmptyString) (String a s)
  = if ascii_dec c a then true else false.
Proof. simpl. destruct (ascii_dec c a); [by destruct s|done]. Qed.

(** The first occurrence of a one-byte separator after a text that does
    not hold it. *)
Lemma Index_app_char (s t : string) (c : ascii) :
  strings.Contains s (String c EmptyString) = false →
  strings.Index (s +:+ String c t) (String c EmptyString) = Some (String.length s).
Proof.
  unfold strings.Contains. induction s as [|a s IH]; intros Hc.
  - rewrite Index_eq. change (EmptyString +:+ String c t) with (String c t).
    rewrite prefix_char. by destruct (ascii_dec c c).
  - rewrite Index_eq in Hc. rewrite Index_eq.
    change (String a s +:+ String c t) with (String a (s +:+ String c t)).
    rewrite prefix_char in *. destruct (ascii_dec c a); [done|].
    destruct (strings.Index s (String c EmptyString)) eqn:Hs; [done|].
    rewrite IH by done. done.
Qed.

Lemma Index_empty (sep : string) :
  sep ≠ EmptyString → strings.Index EmptyString sep = None.
Proof. destruct sep; [done|]. done. Qed.

Lemma genSplit_loop_nonempty (n : nat) (s sep : string) :
  (1 <= length (strings.genSplit_loop n s sep))%nat.
Proof.
  destruct n; simpl; [lia|]. destruct (strings.Index s sep); simpl; lia.
Qed.

(** [SplitN] with a positive count gives at least one part. *)
Lemma SplitN_first (s sep : string) (n : Z) :
  0 < n → ∃ x rest, strings.SplitN s sep n = x :: rest.
Proof.
  intros Hn. unfold strings.SplitN.
  destruct (Z.eqb_spec n 0) as [|_]; [lia|].
  pose proof (genSplit_loop_nonempty
    (Z.to_nat ((Z.min (if n <? 0 then Z.of_nat (strings.Count s sep) + 1 else n)
                  (Z.of_nat (String.length s) + 1)) - 1)) s sep) as Hlen.
  destruct (strings.genSplit_loop _ s sep) as [|x rest]; [simpl in Hlen; lia|eauto].
Qed.


Lemma Split_unfold (s sep : string) :
  strings.Split s sep
  = strings.genSplit_loop (Nat.min (strings.Count s sep) (String.length s)) s sep.
Proof.
  unfold strings.Split, strings.SplitN.
  change (-1 =? 0) with false. change (-1 <? 0) with true. cbv iota.
  f_equal. lia.
Qed.


(* ===================================================================== *)
(** * The reference matcher *)
(* ===================================================================== *)

Section Reference.

Variable ParseNormalizedNamed : string → option reference.Named.

Local Abbreviation matchesReference := (images.matchesReference ParseNormalizedNamed).



Lemma matchesReference_unparsed (imageName argName : string) :
  argName ≠ EmptyString → ParseNormalizedNamed imageName = None →
  matchesReference imageName argName = false.
Proof.
  intros Hne Hp. unfold images.matchesReference. rewrite Hp.
  destruct (String.eqb_spec argName EmptyString); [done|].
  by destruct (String.eqb imageName EmptyString).
Qed.




End Reference.



(** A pattern is cut at its first colon, also when that colon belongs to
    a registry port: such a pattern does not match the name it spells. *)
Example matchesReference_port :
  patternRepository "localhost:5000/img:v1" = "localhost"
  ∧ patternTag "localhost:5000/img:v1" = "5000/img"
  ∧ samples.matchesReference "localhost:5000/img:v1" "localhost:5000/img:v1" = false.
Proof. repeat split; vm_compute; reflexivity. Qed.

(* ===================================================================== *)
(** * The label predicate *)
(* ===================================================================== *)

Lemma SplitN_2 (s sep : string) :
  sep ≠ EmptyString →
  strings.SplitN s sep 2
  = match strings.Index s sep with
    | Some m => [strings.take m s; strings.drop (m + String.length sep) s]
    | None => [s]
    end.
Proof.
  intros Hsep. unfold strings.SplitN.
  change (2 =? 0) with false. change (2 <? 0) with false. cbv iota.
  destruct s as [|c s].
  - rewrite Index_empty by done. done.
  - replace (Z.to_nat (Z.min 2 (Z.of_nat (String.length (String c s)) + 1) - 1))
      with 1%nat by (simpl String.length; lia).
    done.
Qed.

(** The loop over the labels, on entries with distinct keys: it answers
    [true] exactly when the predicate has a key and a value and the
    entries hold that very pair. *)
Lemma matchesLabel_loop_spec (pair : list string) (entries : list (string * string)) :
  NoDup entries.*1 →
  (images.matchesLabel_loop pair entries = true
   ↔ length pair = 2%nat ∧ (pair !!! 0%nat, pair !!! 1%nat) ∈ entries).
Proof.
  induction entries as [|[key value] rest IH]; intros Hnd.
  - simpl. split; [done|]. intros [_ H]. by apply elem_of_nil in H.
  - apply NoDup_cons in Hnd as [Hkey Hnd]. specialize (IH Hnd).
    cbn [images.matchesLabel_loop].
    destruct (String.eqb_spec key (pair !!! 0%nat)) as [Hk|Hk].
    + destruct (Nat.eqb_spec (length pair) 2) as [Hl|Hl].
      * destruct (String.eqb_spec value (pair !!! 1%nat)) as [Hv|Hv].
        -- subst. split; [|done]. intros _. split; [done|]. apply elem_of_cons. by left.
        -- rewrite IH. split.
           ++ intros [_ Hin]. exfalso. apply Hkey. rewrite Hk.
              apply list_elem_of_fmap. by exists (pair !!! 0%nat, pair !!! 1%nat).
           ++ intros [_ Hin]. apply elem_of_cons in Hin as [[= ? ?]|Hin]; [done|].
              exfalso. apply Hkey. rewrite Hk.
              apply list_elem_of_fmap. by exists (pair !!! 0%nat, pair !!! 1%nat).
      * split; [done|]. by intros [? _].
    + rewrite IH. split; intros [Hl Hin]; (split; [done|]).
      * apply elem_of_cons. by right.
      * apply elem_of_cons in Hin as [[= ? ?]|Hin]; [by subst|done].
Qed.

Section Label.

Context {Store : Type}.
Variable inspectImage : Store → string → images.inspectOutcome.

(** What [matchesLabel] computes: the image's configuration can be
    inspected, the predicate has the form [key=value], and the labels
    map that key to that value. *)
Lemma matchesLabel_spec (store : Store) (image : storage.Image) (label : string) :
  images.matchesLabel inspectImage store image label = true
  ↔ ∃ info m,
      inspectImage store (storage.ID image) = images.Inspected info
      ∧ strings.Index label "=" = Some m
      ∧ types.Labels info !! strings.take m label = Some (strings.drop (S m) label).
Proof.
  unfold images.matchesLabel.
  destruct (inspectImage store (storage.ID image)) as [info| | |];
    try (split; [done|intros (? & ? & ? & _); done]).
  rewrite matchesLabel_loop_spec by apply NoDup_fst_map_to_list.
  rewrite SplitN_2 by done.
  destruct (strings.Index label "=") as [m|].
  - change (String.length "=") with 1%nat.
    replace (m + 1)%nat with (S m) by lia.
    change ([strings.take m label; strings.drop (S m) label] !!! 0%nat)
      with (strings.take m label).
    change ([strings.take m label; strings.drop (S m) label] !!! 1%nat)
      with (strings.drop (S m) label).
    rewrite elem_of_map_to_list. split.
    + intros [_ H]. by exists info, m.
    + intros (info' & m' & [= <-] & [= <-] & H). done.
  - split; [by intros [? _]|]. intros (? & ? & _ & ? & _). done.
Qed.

(** A predicate that is a bare key, without [=], matches no image,
    whether or not the image carries the key. *)
Lemma matchesLabel_bare_key (store : Store) (image : storage.Image) (label : string) :
  strings.Contains label "=" = false →
  images.matchesLabel inspectImage store image label = false.
Proof.
  unfold strings.Contains. intros Hc.
  apply not_true_is_false. rewrite matchesLabel_spec.
  intros (info & m & _ & Hm & _). by rewrite Hm in Hc.
Qed.

End Label.

(** C3, at the input where the code departs from it: the image carries
    the label [maintainer], the predicate is the bare key [maintainer],
    and [matchesLabel] answers [false]; with the value spelled out it
    answers [true]. *)
Theorem matchesLabel_bare_key_present :
  samples.labelsOf (storage.ID samples.tagged) !! "maintainer" = Some "alice"
  ∧ samples.matchesLabel tt samples.tagged "maintainer" = false
  ∧ samples.matchesLabel tt samples.tagged "maintainer=alice" = true.
Proof. repeat split; vm_compute; reflexivity. Qed.

(* ===================================================================== *)
(** * The filter parser *)
(* ===================================================================== *)

Section Parser.

Context {Store : Type}.
Variable ParseNormalizedNamed : string → option reference.Named.
Variable inspectImage : Store → string → images.inspectOutcome.

Local Abbreviation setFilterDate :=
  (images.setFilterDate ParseNormalizedNamed inspectImage).
Local Abbreviation parseFilter_param :=
  (images.parseFilter_param ParseNormalizedNamed inspectImage).

(** When no name of any stored image matches, [setFilterDate] fails
    with an error that names the argument. *)
Lemma setFilterDate_unmatched (store : Store) (images : list storage.Image)
    (imgName : string) :
  (∀ image name, image ∈ images → name ∈ storage.Names image →
     images.matchesReference ParseNormalizedNamed name imgName = false) →
  setFilterDate store images imgName
  = Err ("could not locate image " +:+ images.quoted imgName).
Proof.
  induction images as [|image rest IH]; intros Hno; [done|].
  cbn [images.setFilterDate].
  assert (Hnames : ∀ names, (∀ name, name ∈ names → name ∈ storage.Names image) →
            images.setFilterDate_names ParseNormalizedNamed inspectImage
              store image names imgName = None).
  { induction names as [|name names IHn]; intros Hsub; [done|].
    cbn [images.setFilterDate_names].
    rewrite (Hno image name); [|apply elem_of_cons; by left|apply Hsub, elem_of_cons; by left].
    apply IHn. intros n Hn. apply Hsub, elem_of_cons. by right. }
  rewrite Hnames by done. apply IH.
  intros image' name Hi Hn.
  apply (Hno image' name); [apply elem_of_cons; by right|done].
Qed.

(** A [before] or [since] clause whose reference cannot be resolved is
    reported with the text left of the [=], the key, in the message;
    the reference itself is not in it. *)
Lemma parseFilter_param_unresolved (store : Store) (images : list storage.Image)
    (params : filterParams.t) (key value : string) :
  key = "before" ∨ key = "since" →
  strings.Contains key "=" = false →
  images.isErr (setFilterDate store images value) = true →
  parseFilter_param store images params (key +:+ "=" +:+ value)
  = Err ("no such id: " +:+ key).
Proof.
  intros Hkey Hc Herr. unfold images.parseFilter_param.
  rewrite SplitN_2 by done.
  change ("=" +:+ value) with (String "="%char value).
  rewrite Index_app_char by done.
  rewrite str_take_app, str_drop_app_char.
  destruct params.
  destruct Hkey as [-> | ->]; cbn -[images.setFilterDate];
    destruct (setFilterDate store images value); done.
Qed.

(** A clause with a recognised key and no [=] makes the parser index
    past the end of the pair. *)
Lemma parseFilter_param_no_separator (store : Store) (images : list storage.Image)
    (params : filterParams.t) (key : string) :
  key ∈ ["dangling"; "label"; "before"; "since"; "reference"; "readonly"] →
  parseFilter_param store images params key = Panic "index out of range".
Proof.
  intros Hkey. unfold images.parseFilter_param. destruct params.
  repeat (apply elem_of_cons in Hkey as [->|Hkey]; [reflexivity|]).
  by apply elem_of_nil in Hkey.
Qed.

End Parser.

(** C4, at the input where the code departs from it: no stored image is
    called [nosuchimage]; [setFilterDate] says so, naming the argument,
    but the error [parseFilter] returns for [before=nosuchimage] and for
    [since=nosuchimage] names the key of the clause. *)
Theorem parseFilter_unresolved_names_key :
  images.setFilterDate samples.parseReference samples.inspectImage tt
    samples.theImages "nosuchimage"
  = Err ("could not locate image " +:+ images.quoted "nosuchimage")
  ∧ samples.parseFilter tt samples.theImages "before=nosuchimage"
    = Err "no such id: before"
  ∧ samples.parseFilter tt samples.theImages "since=nosuchimage"
    = Err "no such id: since"
  ∧ (samples.imagesCmd [] (samples.withFilter "before=nosuchimage")).2
    = Err "error parsing filter: no such id: before".
Proof. repeat split; vm_compute; reflexivity. Qed.

(** C5, at the input where the code departs from it: the filter is the
    bare word [dangling]; the parser does not return, it panics on the
    index [pair[1]], and so does the command.  A clause with an unknown
    key and no [=] is reported as an error. *)
Theorem parseFilter_bare_word_panics :
  strings.SplitN "dangling" "=" 2 = ["dangling"]
  ∧ samples.parseFilter tt samples.theImages "dangling" = Panic "index out of range"
  ∧ samples.parseFilter tt samples.theImages "bogus" = Err "invalid filter: 'bogus'"
  ∧ samples.imagesCmd [] (samples.withFilter "dangling")
    = ([images.EvGetStore; images.EvSystemContext; images.EvStoreImages;
        images.EvParseFilter], Panic "index out of range").
Proof. repeat split; vm_compute; reflexivity. Qed.

(* ===================================================================== *)
(** * Size formatting *)
(* ===================================================================== *)

Lemma divided_succ_r (n : nat) (v : spec_float) :
  divided (S n) v = divided n (float64.div v (float64.of_int 1000)).
Proof.
  exact (Nat.iter_succ_r n (fun x => float64.div x (float64.of_int 1000)) v).
Qed.

(** The loop of [formattedSize] ends within the iterations the count
    allows: it has divided [k] times, every value before the last was at
    or above 1000, and it stopped because the count reached 4 or the
    value is no longer at or above 1000. *)
Lemma scale_spec (fuel : nat) (v : spec_float) (count : Z) :
  0 <= count <= 4 → 4 - count <= Z.of_nat fuel →
  ∃ k : nat,
    images.scale fuel v count = Some (divided k v, count + Z.of_nat k)
    ∧ count + Z.of_nat k <= 4
    ∧ (count + Z.of_nat k = 4
       ∨ float64.geb (divided k v) (float64.of_int 1000) = false)
    ∧ (∀ i, (i < k)%nat → float64.geb (divided i v) (float64.of_int 1000) = true).
Proof.
  revert v count. induction fuel as [|fuel IH]; intros v count Hc Hf.
  - exists O. assert (count = 4) as -> by lia. cbn [images.scale].
    rewrite andb_false_r. repeat split; lia.
  - cbn [images.scale].
    destruct (float64.geb v (float64.of_int 1000)) eqn:Hge;
      [destruct (Z.ltb_spec count 4) as [Hlt|Hlt]|]; cbn [andb].
    + destruct (IH (float64.div v (float64.of_int 1000)) (count + 1))
        as (k & Hs & Hle & Hstop & Hall); [lia|lia|].
      exists (S k). rewrite divided_succ_r. rewrite Hs.
      replace (count + 1 + Z.of_nat k) with (count + Z.of_nat (S k)) in * by lia.
      repeat split; try done.
      intros [|i] Hi; [done|]. rewrite divided_succ_r. apply Hall. lia.
    + exists O. replace (count + Z.of_nat 0) with count by lia.
      repeat split; lia.
    + exists O. replace (count + Z.of_nat 0) with count by lia.
      repeat split; try lia. by right.
Qed.

(** More fuel than four iterations changes nothing. *)
Lemma scale_fuel (fuel : nat) (v : spec_float) :
  (4 <= fuel)%nat → images.scale fuel v 0 = images.scale 4 v 0.
Proof.
  intros Hf.
  destruct (scale_spec fuel v 0) as (k & -> & Hle & Hstop & Hall); [lia|lia|].
  destruct (scale_spec 4 v 0) as (k' & -> & Hle' & Hstop' & Hall'); [lia|lia|].
  destruct (Nat.lt_trichotomy k k') as [Hlt|[->|Hlt]]; [|done|].
  - pose proof (Hall' _ Hlt). destruct Hstop as [|Hstop]; [lia|congruence].
  - pose proof (Hall _ Hlt). destruct Hstop' as [|Hstop']; [lia|congruence].
Qed.

(** [formattedSize] returns for every size: the loop ends and the index
    into the suffixes is in range. *)
Lemma formattedSize_general (size : Z) :
  ∃ (count : nat) (suffix : string),
    (count <= 4)%nat
    ∧ (∀ i, (i < count)%nat →
         float64.geb (divided i (float64.of_int size)) (float64.of_int 1000) = true)
    ∧ (count = 4%nat
       ∨ float64.geb (divided count (float64.of_int size)) (float64.of_int 1000) = false)
    ∧ images.suffixes !! count = Some suffix
    ∧ images.formattedSize size
      = Ok (fmt.Sprintf_g 3 (divided count (float64.of_int size)) +:+ " " +:+ suffix).
Proof.
  destruct (scale_spec 4 (float64.of_int size) 0) as (k & Hs & Hle & Hstop & Hall);
    [lia|lia|].
  assert (Hk : (k <= 4)%nat) by lia.
  destruct (images.suffixes !! k) as [suffix|] eqn:Hsuf.
  - exists k, suffix. repeat split; try done.
    + destruct Hstop as [|Hstop]; [left; lia|by right].
    + unfold images.formattedSize. rewrite Hs.
      replace (Z.to_nat (0 + Z.of_nat k)) with k by lia.
      unfold index. rewrite Hsuf. done.
  - apply lookup_ge_None in Hsuf. simpl in Hsuf. lia.
Qed.

Lemma formattedSize_ok (size : Z) : ∃ s, images.formattedSize size = Ok s.
Proof. destruct (formattedSize_general size) as (? & ? & _ & _ & _ & _ & ->). eauto. Qed.





(** When the three digits round up to 1000 the value is printed with an
    exponent; past the last suffix it is printed with one as well. *)
Example formattedSize_exponent :
  images.formattedSize 999499 = Ok "999 KB"
  ∧ images.formattedSize 999500 = Ok "1e+03 KB"
  ∧ images.formattedSize 1000000 = Ok "1 MB"
  ∧ images.formattedSize (10 ^ 9 - 1) = Ok "1e+03 MB"
  ∧ images.formattedSize (10 ^ 9) = Ok "1 GB"
  ∧ images.formattedSize (10 ^ 12) = Ok "1 TB"
  ∧ images.formattedSize (10 ^ 16) = Ok "1e+04 TB"
  ∧ images.formattedSize (2 ^ 63 - 1) = Ok "9.22e+06 TB".
Proof. repeat split; vm_compute; reflexivity. Qed.

(* ===================================================================== *)
(** * The command and the row projector *)
(* ===================================================================== *)

(** An element that differs from each of the listed ones is not in the list. *)
Ltac not_in_list :=
  let Hin := fresh "Hin" in
  intros Hin;
  repeat (apply elem_of_cons in Hin as [Hin|Hin]; [discriminate Hin|]);
  by apply elem_of_nil in Hin.

Section Command.

Context {Store SystemContext : Type}.
Variable ParseNormalizedNamed : string → option reference.Named.
Variable inspectImage : Store → string → images.inspectOutcome.
Variable getDateAndSize : SystemContext → Store → storage.Image → time.Time * Z.
Variable imageIsParent : SystemContext → Store → storage.Image → bool.
Variable HumanDurationSince : time.Time → string.
Variable sort_Sort : ∀ T : Type, sort.Interface T → T → T.
Variable IDString : string.
Variable VerifyFlagsArgsOrder : list string → option string.
Variable getStore : result Store.
Variable SystemContextFromOptions : result SystemContext.
Variable store_Images : Store → result (list storage.Image).

Local Abbreviation imagesCmd :=
  (images.imagesCmd ParseNormalizedNamed inspectImage getDateAndSize imageIsParent
     HumanDurationSince sort_Sort IDString VerifyFlagsArgsOrder
     getStore SystemContextFromOptions store_Images).
Local Abbreviation matchesFilter :=
  (images.matchesFilter ParseNormalizedNamed inspectImage).
Local Abbreviation outputImages_image :=
  (images.outputImages_image ParseNormalizedNamed inspectImage getDateAndSize
     imageIsParent HumanDurationSince).

(** The argument checks, when the arguments are accepted, yield the
    name argument and touch nothing. *)
Lemma argsAccepted_name (args : list string) (iopts : imageResults.t) :
  argsAccepted VerifyFlagsArgsOrder args iopts →
  ∃ name,
    (if (0 <? length args)%nat then
       if imageOptions.all (imageResults.imageOptions iopts) then
         Err "when using the --all switch, you may not pass any images names or IDs"
       else
         match VerifyFlagsArgsOrder args with
         | Some err => Err err
         | None =>
             if (length args =? 1)%nat then index args 0
             else Err "'buildah images' requires at most 1 argument"
         end
     else Ok EmptyString) = Ok name.
Proof.
  intros [-> | (Hall & Hv & Hl)]; [by exists EmptyString|].
  rewrite Hall, Hv, Hl. destruct args as [|name [|]]; try done. by exists name.
Qed.

Lemma imagesCmd_quiet_format_error (args : list string) (iopts : imageResults.t)
    (store : Store) (systemContext : SystemContext) (imgs : list storage.Image) :
  argsAccepted VerifyFlagsArgsOrder args iopts →
  getStore = Ok store →
  SystemContextFromOptions = Ok systemContext →
  store_Images store = Ok imgs →
  imageOptions.quiet (imageResults.imageOptions iopts) = true →
  imageOptions.format (imageResults.imageOptions iopts) ≠ EmptyString →
  imagesCmd args iopts
  = ([images.EvGetStore; images.EvSystemContext; images.EvStoreImages],
     Err "quiet and format are mutually exclusive").
Proof.
  intros Hargs Hs Hc Hi Hq Hf. unfold images.imagesCmd.
  destruct (argsAccepted_name args iopts Hargs) as [name ->].
  rewrite Hs, Hc, Hq. cbn -[String.eqb]. rewrite Hi. cbn -[String.eqb].
  by destruct (String.eqb_spec
                 (imageOptions.format (imageResults.imageOptions iopts)) EmptyString).
Qed.

(** With both options set the command never gets to the filter or to
    the rows, whatever the store does. *)
Lemma imagesCmd_quiet_format_stops (args : list string) (iopts : imageResults.t) :
  imageOptions.quiet (imageResults.imageOptions iopts) = true →
  imageOptions.format (imageResults.imageOptions iopts) ≠ EmptyString →
  (images.EvParseFilter ∉ (imagesCmd args iopts).1)
  ∧ (images.EvOutputImages ∉ (imagesCmd args iopts).1)
  ∧ is_Ok (imagesCmd args iopts).2 = false.
Proof.
  intros Hq Hf. unfold images.imagesCmd. rewrite Hq.
  destruct (String.eqb_spec
              (imageOptions.format (imageResults.imageOptions iopts)) EmptyString);
    [done|].
  unfold images.tbind, images.pure, images.call, images.Wrapf.
  repeat match goal with
         | |- context [match ?r with Ok _ => _ | Err _ => _ | Panic _ => _ end] =>
             destruct r; cbn
         | |- context [if ?b then _ else _] => destruct b; cbn
         | |- context [match ?o with Some _ => _ | None => _ end] =>
             destruct o; cbn
         end;
    repeat split; try done; not_in_list.
Qed.

(** A nil filter set matches every record. *)
Lemma matchesFilter_nil (store : Store) (image : storage.Image) (name : string) :
  matchesFilter store image name None = true.
Proof. done. Qed.

Lemma outputImages_image_zero_names (systemContext : SystemContext) (store : Store)
    (filters : option filterParams.t) (argName : string) (opts : imageOptions.t)
    (st : images.loopState) (image : storage.Image) :
  storage.Names image = [] →
  imageOptions.json opts = false →
  imageOptions.all opts = true ∨ imageIsParent systemContext store image = false →
  matchesFilter store image EmptyString filters = true →
  ∃ st' row,
    outputImages_image systemContext store filters argName opts st image = Ok st'
    ∧ images.imagesParams st' = images.imagesParams st ++ [row]
    ∧ imageOutputParams.Name row = EmptyString
    ∧ imageOutputParams.Tag row = EmptyString
    ∧ images.jsonImages st' = images.jsonImages st
    ∧ images.found st' = images.found st.
Proof.
  intros Hn Hj Hp Hm. unfold images.outputImages_image.
  destruct (getDateAndSize systemContext store image) as [inspectedTime size].
  rewrite Hn, Hj, Hm. cbn [length Nat.eqb fold_left andb orb negb
    images.filterMatched images.imageReposAndTags images.nfound].
  assert (negb (imageOptions.all opts) && true
          && imageIsParent systemContext store image = false) as ->.
  { destruct Hp as [-> | ->]; [done|]. by rewrite andb_false_r. }
  destruct (formattedSize_ok size) as [sizeString ->].
  destruct (imageOptions.quiet opts); cbn; eauto 10.
Qed.

End Command.

(** C2, as the code has it.  With [--quiet] and [--format] both set the
    command never parses the filter, never projects or renders a row and
    never succeeds; when the arguments are accepted and the store, the
    system context and the list of images are obtained, it fails with
    the mutual-exclusion error, after these three calls. *)
Theorem imagesCmd_quiet_format
    {Store SystemContext : Type}
    (ParseNormalizedNamed : string → option reference.Named)
    (inspectImage : Store → string → images.inspectOutcome)
    (getDateAndSize : SystemContext → Store → storage.Image → time.Time * Z)
    (imageIsParent : SystemContext → Store → storage.Image → bool)
    (HumanDurationSince : time.Time → string)
    (sort_Sort : ∀ T : Type, sort.Interface T → T → T)
    (IDString : string)
    (VerifyFlagsArgsOrder : list string → option string)
    (getStore : result Store)
    (SystemContextFromOptions : result SystemContext)
    (store_Images : Store → result (list storage.Image))
    (args : list string) (iopts : imageResults.t) :
  let run :=
    images.imagesCmd ParseNormalizedNamed inspectImage getDateAndSize imageIsParent
      HumanDurationSince sort_Sort IDString VerifyFlagsArgsOrder
      getStore SystemContextFromOptions store_Images args iopts in
  imageOptions.quiet (imageResults.imageOptions iopts) = true →
  imageOptions.format (imageResults.imageOptions iopts) ≠ EmptyString →
  ((images.EvParseFilter ∉ run.1) ∧ (images.EvOutputImages ∉ run.1)
   ∧ is_Ok run.2 = false)
  ∧ (∀ store systemContext imgs,
       argsAccepted VerifyFlagsArgsOrder args iopts →
       getStore = Ok store →
       SystemContextFromOptions = Ok systemContext →
       store_Images store = Ok imgs →
       run = ([images.EvGetStore; images.EvSystemContext; images.EvStoreImages],
              Err "quiet and format are mutually exclusive")).
Proof.
  intros run Hq Hf. split.
  - by apply imagesCmd_quiet_format_stops.
  - intros store systemContext imgs Ha Hs Hc Hi.
    by eapply imagesCmd_quiet_format_error.
Qed.

Lemma imagesCmd_quiet_format_witness :
  samples.imagesCmd [] samples.quietFormat
  = ([images.EvGetStore; images.EvSystemContext; images.EvStoreImages],
     Err "quiet and format are mutually exclusive").
Proof.
  refine (proj2 (imagesCmd_quiet_format samples.parseReference samples.inspectImage
            samples.getDateAndSize samples.imageIsParent samples.HumanDurationSince
            samples.sort_Sort samples.IDString samples.VerifyFlagsArgsOrder
            samples.getStore samples.SystemContextFromOptions samples.store_Images
            [] samples.quietFormat eq_refl _) tt tt samples.theImages _ eq_refl eq_refl eq_refl).
  - discriminate.
  - by left.
Defined.

(** C2 as stated fails: with both options set the store handle is
    obtained and the images are enumerated before the mutual-exclusion
    error; and when the store cannot be opened the command fails with
    the store's error instead. *)
Lemma imagesCmd_quiet_format_after_store :
  imageOptions.quiet (imageResults.imageOptions samples.quietFormat) = true
  ∧ imageOptions.format (imageResults.imageOptions samples.quietFormat) = "{{.ID}}"
  ∧ samples.imagesCmd [] samples.quietFormat
    = ([images.EvGetStore; images.EvSystemContext; images.EvStoreImages],
       Err "quiet and format are mutually exclusive")
  ∧ samples.imagesCmd_noStore [] samples.quietFormat
    = ([images.EvGetStore], Err "unable to open the store").
Proof. repeat split; vm_compute; reflexivity. Qed.

(** C9, as the code has it.  A nil filter set matches every record.  A
    record with zero names adds exactly one row, with empty name and
    tag, and no JSON entry, when the output is not JSON, the record is
    not held back as an intermediate image ([--all] is set or the record
    is not a parent) and the filter set accepts the empty display name. *)
Theorem outputImages_zero_names
    {Store SystemContext : Type}
    (ParseNormalizedNamed : string → option reference.Named)
    (inspectImage : Store → string → images.inspectOutcome)
    (getDateAndSize : SystemContext → Store → storage.Image → time.Time * Z)
    (imageIsParent : SystemContext → Store → storage.Image → bool)
    (HumanDurationSince : time.Time → string) :
  (∀ store image name,
     images.matchesFilter ParseNormalizedNamed inspectImage store image name None = true)
  ∧ (∀ systemContext store filters argName opts st image,
       storage.Names image = [] →
       imageOptions.json opts = false →
       imageOptions.all opts = true ∨ imageIsParent systemContext store image = false →
       images.matchesFilter ParseNormalizedNamed inspectImage store image EmptyString
         filters = true →
       ∃ st' row,
         images.outputImages_image ParseNormalizedNamed inspectImage getDateAndSize
           imageIsParent HumanDurationSince systemContext store filters argName opts
           st image = Ok st'
         ∧ images.imagesParams st' = images.imagesParams st ++ [row]
         ∧ imageOutputParams.Name row = EmptyString
         ∧ imageOutputParams.Tag row = EmptyString
         ∧ images.jsonImages st' = images.jsonImages st
         ∧ images.found st' = images.found st).
Proof.
  split.
  - intros. apply matchesFilter_nil.
  - intros. by apply outputImages_image_zero_names.
Qed.

Lemma outputImages_zero_names_witness :
  ∃ st' row,
    samples.outputImages_image tt tt None EmptyString samples.noOptions
      emptyState samples.orphan = Ok st'
    ∧ images.imagesParams st' = images.imagesParams emptyState ++ [row]
    ∧ imageOutputParams.Name row = EmptyString
    ∧ imageOutputParams.Tag row = EmptyString
    ∧ images.jsonImages st' = images.jsonImages emptyState
    ∧ images.found st' = images.found emptyState.
Proof.
  apply (proj2 (outputImages_zero_names samples.parseReference samples.inspectImage
           samples.getDateAndSize samples.imageIsParent samples.HumanDurationSince)
           tt tt None EmptyString samples.noOptions emptyState samples.orphan).
  - reflexivity.
  - reflexivity.
  - right. reflexivity.
  - reflexivity.
Defined.

(** C9 as stated fails: a record with zero names that is the parent of
    another image adds no row when [--all] is not set, although the
    filter set is nil; and in JSON mode a record adds no row at all. *)
Lemma outputImages_zero_names_no_row :
  storage.Names samples.parent = []
  ∧ samples.outputImages_image tt tt None EmptyString samples.noOptions
      emptyState samples.parent = Ok emptyState
  ∧ (∃ st', samples.outputImages_image tt tt None EmptyString
              (imageOptions.mk true false EmptyString true false false false false)
              emptyState samples.orphan = Ok st'
            ∧ images.imagesParams st' = []).
Proof. repeat split. eexists. split; vm_compute; reflexivity. Qed.

(* ===================================================================== *)
(** * Sorting the rows *)
(* ===================================================================== *)

Lemma time_After_asym (t u : time.Time) : time.After t u = true → time.After u t = false.
Proof. destruct t, u. unfold time.After. simpl. lia. Qed.

Lemma time_After_total (t u : time.Time) :
  t ≠ u → time.After u t = false → time.After t u = true.
Proof.
  destruct t as [s n], u as [s' n']. unfold time.After. simpl. intros Hne Hu.
  assert (s ≠ s' ∨ n ≠ n') as Hd.
  { destruct (Z.eq_dec s s') as [->|]; [|by left].
    destruct (Z.eq_dec n n') as [->|]; [done|by right]. }
  lia.
Qed.

Lemma notOlder_trans (x y z : imageOutputParams.t) :
  notOlder x y → notOlder y z → notOlder x z.
Proof.
  unfold notOlder. destruct (rowTime x), (rowTime y), (rowTime z).
  unfold time.After. simpl. lia.
Qed.

Lemma Less_lookup (a : images.imagesSorted) (i j : nat) (x y : imageOutputParams.t) :
  a !! i = Some x → a !! j = Some y →
  images.Less a i j = time.After (rowTime x) (rowTime y).
Proof. unfold images.Less. by intros -> ->. Qed.

Lemma Less_adjacent (pre post : list imageOutputParams.t) (x y : imageOutputParams.t) :
  images.Less (pre ++ y :: x :: post) (S (length pre)) (length pre)
  = time.After (rowTime x) (rowTime y).
Proof.
  apply Less_lookup.
  - rewrite (lookup_app_r pre) by lia.
    by replace (S (length pre) - length pre)%nat with 1%nat by lia.
  - by apply list_lookup_middle.
Qed.

Lemma Swap_adjacent (pre post : list imageOutputParams.t) (x y : imageOutputParams.t) :
  images.Swap (pre ++ y :: x :: post) (S (length pre)) (length pre)
  = pre ++ x :: y :: post.
Proof.
  unfold images.Swap.
  rewrite (lookup_app_r pre) by lia.
  replace (S (length pre) - length pre)%nat with 1%nat by lia.
  rewrite (list_lookup_middle pre _ y (length pre)) by done.
  cbn [lookup list_lookup].
  rewrite !insert_app_r_alt by lia.
  replace (S (length pre) - length pre)%nat with 1%nat by lia.
  by rewrite Nat.sub_diag.
Qed.

(** The inner loop moves the element at position [length before] down
    past the elements that are older. *)
Lemma siftDown_sifted (before post : list imageOutputParams.t) (x : imageOutputParams.t) :
  sort.siftDown images.imagesSorted_Interface (length before)
    (rev before ++ x :: post)
  = sifted x before ++ post.
Proof.
  revert post. induction before as [|y rest IH]; intros post; [done|].
  cbn [length sort.siftDown sifted rev].
  change (sort.Less images.imagesSorted_Interface) with images.Less.
  change (sort.Swap images.imagesSorted_Interface) with images.Swap.
  rewrite <- (length_rev rest). rewrite <- app_assoc. cbn [app].
  rewrite Less_adjacent, Swap_adjacent.
  destruct (time.After (rowTime x) (rowTime y)).
  - rewrite length_rev, IH. by rewrite <- app_assoc.
  - by rewrite <- !app_assoc.
Qed.

Lemma sifted_perm (x : imageOutputParams.t) (before : list imageOutputParams.t) :
  sifted x before ≡ₚ x :: before.
Proof.
  induction before as [|y rest IH]; [done|]. cbn [sifted].
  destruct (time.After (rowTime x) (rowTime y)).
  - rewrite IH. rewrite <- Permutation_cons_append. apply perm_swap.
  - rewrite <- Permutation_cons_append. by rewrite <- Permutation_rev.
Qed.

Lemma elem_of_rev_iff {A : Type} (x : A) (l : list A) : x ∈ rev l ↔ x ∈ l.
Proof. rewrite !list_elem_of_In. symmetry. apply in_rev. Qed.

Lemma sifted_sorted (x : imageOutputParams.t) (before : list imageOutputParams.t) :
  StronglySorted notOlder (rev before) → StronglySorted notOlder (sifted x before).
Proof.
  induction before as [|y rest IH]; intros Hs.
  - repeat constructor.
  - cbn [sifted]. cbn [rev] in Hs.
    apply StronglySorted_app in Hs as (Hall & Hrest & _).
    destruct (time.After (rowTime x) (rowTime y)) eqn:Hxy.
    + apply StronglySorted_app. split; [|split; [by apply IH|repeat constructor]].
      intros e z He Hz. apply list_elem_of_singleton in Hz as ->.
      rewrite sifted_perm in He. apply elem_of_cons in He as [->|He].
      * by apply time_After_asym.
      * apply Hall; [by apply elem_of_rev_iff|]. by apply list_elem_of_singleton.
    + apply StronglySorted_app. split; [|split; [|repeat constructor]].
      * intros e z He Hz. apply list_elem_of_singleton in Hz as ->.
        cbn [rev] in He. apply elem_of_app in He as [He|He].
        -- apply notOlder_trans with y; [|done].
           apply Hall; [done|]. by apply list_elem_of_singleton.
        -- by apply list_elem_of_singleton in He as ->.
      * cbn [rev]. apply StronglySorted_app. split; [done|].
        split; [done|repeat constructor].
Qed.

(** The outer loop: with the first [length pre] rows in order, the loop
    puts all of them in order and keeps the rows. *)
Lemma insertionLoop_spec (post pre : list imageOutputParams.t) :
  StronglySorted notOlder pre →
  sort.insertionLoop images.imagesSorted_Interface (length post) (length pre)
    (pre ++ post) ≡ₚ pre ++ post
  ∧ StronglySorted notOlder
      (sort.insertionLoop images.imagesSorted_Interface (length post) (length pre)
         (pre ++ post)).
Proof.
  revert pre. induction post as [|x post IH]; intros pre Hs.
  - cbn [length sort.insertionLoop]. by rewrite app_nil_r.
  - cbn [length sort.insertionLoop].
    assert (Hsift : sort.siftDown images.imagesSorted_Interface (length pre)
                      (pre ++ x :: post) = sifted x (rev pre) ++ post).
    { rewrite <- (siftDown_sifted (rev pre) post x).
      by rewrite length_rev, rev_involutive. }
    rewrite Hsift.
    assert (Hlen : S (length pre) = length (sifted x (rev pre))).
    { by rewrite (Permutation_length (sifted_perm x (rev pre))), <- (length_rev pre). }
    rewrite Hlen.
    destruct (IH (sifted x (rev pre))) as [Hp Hsorted].
    { apply sifted_sorted. by rewrite rev_involutive. }
    split; [|done]. rewrite Hp, sifted_perm, <- Permutation_rev.
    apply Permutation_middle.
Qed.

(** The insertion sort through [Len], [Less] and [Swap] keeps the rows
    and leaves no row before a newer one: it meets the contract of
    [sort.Sort] on [imagesSorted]. *)
Lemma insertionSort_perm (a : images.imagesSorted) :
  sort.insertionSort images.imagesSorted_Interface a ≡ₚ a.
Proof.
  unfold sort.insertionSort. destruct a as [|x a]; [done|].
  change (sort.Len images.imagesSorted_Interface (x :: a) - 1)%nat
    with (length a - 0)%nat.
  rewrite Nat.sub_0_r.
  apply (insertionLoop_spec a [x]). repeat constructor.
Qed.

Lemma insertionSort_StronglySorted (a : images.imagesSorted) :
  StronglySorted notOlder (sort.insertionSort images.imagesSorted_Interface a).
Proof.
  unfold sort.insertionSort. destruct a as [|x a]; [constructor|].
  change (sort.Len images.imagesSorted_Interface (x :: a) - 1)%nat
    with (length a - 0)%nat.
  rewrite Nat.sub_0_r.
  apply (insertionLoop_spec a [x]). repeat constructor.
Qed.

Lemma StronglySorted_lookup_lt {A : Type} (R : A → A → Prop) (l : list A)
    (i j : nat) (x y : A) :
  StronglySorted R l → (i < j)%nat → l !! i = Some x → l !! j = Some y → R x y.
Proof.
  intros Hs. revert i j. induction Hs as [|z l Hs IH Hall]; intros i j Hij Hi Hj.
  - done.
  - destruct j as [|j]; [lia|]. destruct i as [|i].
    + injection Hi as ->. rewrite Forall_forall in Hall.
      apply Hall. by eapply list_elem_of_lookup_2.
    + apply (IH i j); [lia|done|done].
Qed.

Lemma insertionSort_sorted (a : images.imagesSorted) (i j : nat) :
  (i < j < images.Len (sort.insertionSort images.imagesSorted_Interface a))%nat →
  images.Less (sort.insertionSort images.imagesSorted_Interface a) j i = false.
Proof.
  unfold images.Len. intros [Hij Hj].
  destruct (lookup_lt_is_Some_2 _ j Hj) as [y Hy].
  destruct (lookup_lt_is_Some_2 (sort.insertionSort images.imagesSorted_Interface a) i)
    as [x Hx]; [lia|].
  rewrite (Less_lookup _ _ _ y x) by done.
  exact (StronglySorted_lookup_lt notOlder _ i j x y
           (insertionSort_StronglySorted a) Hij Hx Hy).
Qed.

(** A sort that keeps the rows and leaves no row before one that
    [Less] puts first returns rows with distinct timestamps newest
    first. *)
Lemma sorted_rows_descending
    (sort_Sort : ∀ T : Type, sort.Interface T → T → T)
    (rows : images.imagesSorted) :
  (∀ a, sort_Sort images.imagesSorted images.imagesSorted_Interface a ≡ₚ a) →
  (∀ a i j,
     (i < j < images.Len (sort_Sort images.imagesSorted images.imagesSorted_Interface a))%nat →
     images.Less (sort_Sort images.imagesSorted images.imagesSorted_Interface a) j i
     = false) →
  NoDup (rowTime <$> rows) →
  images.sortImagesOutput sort_Sort rows ≡ₚ rows
  ∧ (∀ i j x y,
       (i < j)%nat →
       images.sortImagesOutput sort_Sort rows !! i = Some x →
       images.sortImagesOutput sort_Sort rows !! j = Some y →
       time.After (rowTime x) (rowTime y) = true).
Proof.
  intros Hperm Hsorted Hnd. unfold images.sortImagesOutput.
  split; [apply Hperm|]. intros i j x y Hij Hx Hy.
  apply time_After_total.
  - intros Heq.
    assert (Hnd' : NoDup (rowTime <$>
              sort_Sort images.imagesSorted images.imagesSorted_Interface rows))
      by (by rewrite Hperm).
    assert (i = j); [|lia].
    apply (NoDup_lookup _ i j (rowTime x) Hnd').
    + by rewrite list_lookup_fmap, Hx.
    + by rewrite list_lookup_fmap, Hy, Heq.
  - rewrite <- (Less_lookup _ j i y x Hy Hx). apply Hsorted.
    split; [done|]. apply lookup_lt_is_Some_1. by exists y.
Qed.


(** C8. Let [sort.Sort] meet its contract on [imagesSorted]: it keeps
    the rows and leaves no row before one that [Less] puts first.  Then
    for rows with pairwise distinct raw creation timestamps the rows
    [sortImagesOutput] returns are the given rows, each created strictly
    after every row behind it. *)
Theorem sortImagesOutput_descending
    (sort_Sort : ∀ T : Type, sort.Interface T → T → T)
    (rows : images.imagesSorted) :
  (∀ a, sort_Sort images.imagesSorted images.imagesSorted_Interface a ≡ₚ a) →
  (∀ a i j,
     (i < j < images.Len (sort_Sort images.imagesSorted images.imagesSorted_Interface a))%nat →
     images.Less (sort_Sort images.imagesSorted images.imagesSorted_Interface a) j i
     = false) →
  NoDup (rowTime <$> rows) →
  images.sortImagesOutput sort_Sort rows ≡ₚ rows
  ∧ (∀ i j x y,
       (i < j)%nat →
       images.sortImagesOutput sort_Sort rows !! i = Some x →
       images.sortImagesOutput sort_Sort rows !! j = Some y →
       time.After (rowTime x) (rowTime y) = true).
Proof. apply sorted_rows_descending. Qed.

Lemma sortImagesOutput_descending_witness :
  images.sortImagesOutput samples.sort_Sort sampleRows ≡ₚ sampleRows
  ∧ (∀ i j x y,
       (i < j)%nat →
       images.sortImagesOutput samples.sort_Sort sampleRows !! i = Some x →
       images.sortImagesOutput samples.sort_Sort sampleRows !! j = Some y →
       time.After (rowTime x) (rowTime y) = true).
Proof.
  apply (sortImagesOutput_descending samples.sort_Sort sampleRows).
  - exact insertionSort_perm.
  - exact insertionSort_sorted.
  - cbn. repeat (apply NoDup_cons; split; [not_in_list|]). apply NoDup_nil. done.
Defined.

Example sortImagesOutput_sample :
  imageOutputParams.ID <$> images.sortImagesOutput samples.sort_Sort sampleRows
  = ["b"; "c"; "a"].
Proof. reflexivity. Qed.

(** With the library's insertion sort in the place of [sort.Sort] the
    contract holds, and so does the order of the rows. *)
Corollary insertionSort_descending (rows : images.imagesSorted) :
  NoDup (rowTime <$> rows) →
  ∀ i j x y,
    (i < j)%nat →
    images.sortImagesOutput (@sort.insertionSort) rows !! i = Some x →
    images.sortImagesOutput (@sort.insertionSort) rows !! j = Some y →
    time.After (rowTime x) (rowTime y) = true.
Proof.
  intros Hnd.
  apply (sorted_rows_descending (@sort.insertionSort) rows
           insertionSort_perm insertionSort_sorted Hnd).
Qed.

(* ===================================================================== *)
(** * Properties of the other helpers of util.go *)
(* ===================================================================== *)

Lemma copy_replicate {A : Type} (x : A) (s : list A) :
  buildah.copy (replicate (length s) x) s = s.
Proof.
  unfold buildah.copy. rewrite length_replicate, firstn_all.
  rewrite drop_ge by (by rewrite length_replicate). apply app_nil_r.
Qed.

Lemma fold_left_insert_list_to_map (entries : list (string * string)) :
  fold_left (fun (n : gmap string string) kv => <[kv.1 := kv.2]> n) entries ∅
  = list_to_map (rev entries).
Proof.
  rewrite <- fold_left_rev_right. generalize (rev entries) as l.
  induction l as [|[k v] l IH]; [done|]. simpl. by rewrite IH.
Qed.

(** X1. The copies hold what the originals hold: [copyStringSlice] returns
    the strings of its argument, and [copyStringStringMap] the entries of
    its argument, in whatever order the iteration over the map yields
    them. *)
Theorem copies_equal :
  (∀ s : list string, buildah.copyStringSlice s = s)
  ∧ (∀ (m : gmap string string) (entries : list (string * string)),
       entries ≡ₚ map_to_list m → buildah.copyStringStringMap_range entries = m)
  ∧ (∀ m : gmap string string, buildah.copyStringStringMap m = m).
Proof.
  assert (Hrange : ∀ (m : gmap string string) entries,
            entries ≡ₚ map_to_list m → buildah.copyStringStringMap_range entries = m).
  { intros m entries Hp. unfold buildah.copyStringStringMap_range.
    rewrite fold_left_insert_list_to_map.
    etrans; [|apply list_to_map_to_list].
    apply list_to_map_proper.
    - rewrite <- Permutation_rev, Hp. apply NoDup_fst_map_to_list.
    - by rewrite <- Permutation_rev. }
  split; [|split].
  - intros s. apply copy_replicate.
  - exact Hrange.
  - intros m. by apply Hrange.
Qed.

Lemma copies_equal_witness :
  buildah.copyStringStringMap_range [("b", "2"); ("a", "1")]
  = {[ "a" := "1"; "b" := "2" ]}.
Proof.
  apply (proj1 (proj2 copies_equal)).
  match goal with
  | |- _ ≡ₚ ?l => let l' := eval vm_compute in l in change l with l'
  end.
  apply perm_swap.
Defined.

Lemma pointers_cons_Some (e : v1.History) (p : positive) (rest : list v1.History) :
  v1.Created e = Some p → pointers (e :: rest) = p :: pointers rest.
Proof. unfold pointers. simpl. by intros ->. Qed.

Lemma pointers_cons_None (e : v1.History) (rest : list v1.History) :
  v1.Created e = None → pointers (e :: rest) = pointers rest.
Proof. unfold pointers. simpl. by intros ->. Qed.

Lemma copied_weaken (mem0 mem mem' : buildah.heap) (e e' : v1.History) :
  mem0 ⊆ mem →
  (∀ p, v1.Created e = Some p → is_Some (mem0 !! p)) →
  copied mem mem' e e' → copied mem0 mem' e e'.
Proof.
  intros Hsub Hvalid (H1 & H2 & H3 & H4 & H5). repeat split; try done.
  destruct (v1.Created e) as [p|]; [|done].
  destruct H5 as (q & Hq & Hfresh & Hlook). exists q. split; [done|]. split.
  - intros Hin. apply Hfresh. apply elem_of_dom. apply elem_of_dom in Hin as [t Ht].
    exists t. by eapply lookup_weaken.
  - rewrite Hlook. destruct (Hvalid p eq_refl) as [t Ht].
    rewrite Ht. by eapply lookup_weaken.
Qed.

Lemma Forall2_copied_weaken (mem0 mem mem' : buildah.heap) (l l' : list v1.History) :
  mem0 ⊆ mem → pointersValid mem0 l →
  Forall2 (copied mem mem') l l' → Forall2 (copied mem0 mem') l l'.
Proof.
  intros Hsub Hvalid Hall. induction Hall as [|x y l l' Hxy Hall IH]; constructor.
  - eapply copied_weaken; [exact Hsub| |exact Hxy].
    intros p Hp. apply Hvalid. rewrite (pointers_cons_Some _ _ _ Hp).
    apply elem_of_cons. by left.
  - apply IH. intros p Hp. apply Hvalid.
    destruct (v1.Created x) as [p0|] eqn:Hx.
    + rewrite (pointers_cons_Some _ _ _ Hx). apply elem_of_cons. by right.
    + by rewrite (pointers_cons_None _ _ Hx).
Qed.

(** The loop of [copyHistory] on a history whose pointers are valid:
    it returns, the heap only grows, and what it appends are copies with
    timestamps of their own. *)
Lemma copyHistory_loop_spec (history : list v1.History) :
  ∀ (mem : buildah.heap) (h : list v1.History),
    pointersValid mem history →
    ∃ mem' out,
      buildah.copyHistory_loop mem history h = Ok (mem', h ++ out)
      ∧ mem ⊆ mem'
      ∧ Forall2 (copied mem mem') history out
      ∧ NoDup (pointers out)
      ∧ (∀ q, q ∈ pointers out → q ∉ dom mem).
Proof.
  induction history as [|entry rest IH]; intros mem h Hvalid.
  - exists mem, []. rewrite app_nil_r.
    split; [done|]. split; [done|]. split; [constructor|]. split; [constructor|].
    intros q Hq. by apply elem_of_nil in Hq.
  - cbn [buildah.copyHistory_loop].
    destruct (v1.Created entry) as [p|] eqn:Hc.
    + destruct (Hvalid p) as [timestamp Ht].
      { rewrite (pointers_cons_Some _ _ _ Hc). apply elem_of_cons. by left. }
      rewrite Ht.
      set (q := fresh (dom mem)).
      assert (Hq : q ∉ dom mem) by apply is_fresh.
      assert (Hnone : mem !! q = None) by (by apply not_elem_of_dom).
      assert (Hsub : mem ⊆ <[q:=timestamp]> mem) by (by apply insert_subseteq).
      set (e' := v1.mkHistory (Some q) (v1.CreatedBy entry) (v1.Author entry)
                   (v1.Comment entry) (v1.EmptyLayer entry)).
      destruct (IH (<[q:=timestamp]> mem) (h ++ [e']))
        as (mem' & out & Hloop & Hsub' & Hall & Hnd & Hfresh).
      { intros p' Hp'. destruct (Hvalid p') as [t' Ht'].
        - rewrite (pointers_cons_Some _ _ _ Hc). apply elem_of_cons. by right.
        - exists t'. by eapply lookup_weaken. }
      exists mem', (e' :: out). rewrite Hloop, <- app_assoc.
      split; [done|]. split; [|split; [|split]].
      * by trans (<[q:=timestamp]> mem).
      * constructor.
        -- repeat split; try done. rewrite Hc. exists q. repeat split; try done.
           rewrite Ht. eapply lookup_weaken; [|done]. apply lookup_insert_eq.
        -- eapply Forall2_copied_weaken; [exact Hsub| |exact Hall].
           intros p' Hp'. apply Hvalid.
           rewrite (pointers_cons_Some _ _ _ Hc). apply elem_of_cons. by right.
      * rewrite (pointers_cons_Some e' q out) by done. apply NoDup_cons. split; [|done].
        intros Hin. apply (Hfresh q Hin). apply elem_of_dom. exists timestamp.
        apply lookup_insert_eq.
      * intros q'. rewrite (pointers_cons_Some e' q out) by done.
        intros [->|Hin]%elem_of_cons; [done|].
        intros Hd. apply (Hfresh q' Hin). apply elem_of_dom.
        apply elem_of_dom in Hd as [t Ht']. exists t. by eapply lookup_weaken.
    + set (e' := v1.mkHistory None (v1.CreatedBy entry) (v1.Author entry)
                   (v1.Comment entry) (v1.EmptyLayer entry)).
      destruct (IH mem (h ++ [e'])) as (mem' & out & Hloop & Hsub' & Hall & Hnd & Hfresh).
      { intros p' Hp'. apply Hvalid. by rewrite (pointers_cons_None _ _ Hc). }
      exists mem', (e' :: out). rewrite Hloop, <- app_assoc.
      split; [done|]. split; [done|]. split; [|split].
      * constructor; [|done]. repeat split; try done. by rewrite Hc.
      * by rewrite (pointers_cons_None e' out).
      * intros q'. rewrite (pointers_cons_None e' out) by done. apply Hfresh.
Qed.

(** X2. [copyHistory] never shares a timestamp with its argument.  On a
    history whose pointers are valid it returns nil for the empty
    history and otherwise one entry per entry, with the same fields;
    every timestamp pointer of the result is new, distinct from the
    others, and addresses the value the original points to; the
    timestamps the heap already had are untouched. *)
Theorem copyHistory_fresh (mem : buildah.heap) (history : list v1.History) :
  pointersValid mem history →
  ∃ mem' out,
    buildah.copyHistory mem history = Ok (mem', out)
    ∧ mem ⊆ mem'
    ∧ (history = [] → out = None ∧ mem' = mem)
    ∧ (history ≠ [] →
       ∃ h, out = Some h
            ∧ Forall2 (copied mem mem') history h
            ∧ NoDup (pointers h)
            ∧ (∀ q, q ∈ pointers h → q ∉ pointers history)).
Proof.
  intros Hvalid. unfold buildah.copyHistory.
  destruct history as [|entry rest].
  - exists mem, None. by repeat split.
  - destruct (copyHistory_loop_spec (entry :: rest) mem [] Hvalid)
      as (mem' & out & Hloop & Hsub & Hall & Hnd & Hfresh).
    exists mem', (Some out). cbn [length Nat.eqb]. rewrite Hloop. cbn.
    repeat split; try done. intros _. exists out. repeat split; try done.
    intros q Hq Hin. apply (Hfresh q Hq). apply elem_of_dom. by apply Hvalid.
Qed.

Lemma copyHistory_fresh_witness :
  ∃ mem' out,
    buildah.copyHistory sampleHeap sampleHistory = Ok (mem', out)
    ∧ sampleHeap ⊆ mem'
    ∧ (sampleHistory = [] → out = None ∧ mem' = sampleHeap)
    ∧ (sampleHistory ≠ [] →
       ∃ h, out = Some h
            ∧ Forall2 (copied sampleHeap mem') sampleHistory h
            ∧ NoDup (pointers h)
            ∧ (∀ q, q ∈ pointers h → q ∉ pointers sampleHistory)).
Proof.
  apply (copyHistory_fresh sampleHeap sampleHistory).
  intros p Hp. unfold pointers, sampleHistory in Hp. cbn in Hp.
  apply elem_of_cons in Hp as [->|Hp]; [by eexists|].
  apply elem_of_cons in Hp as [->|Hp]; [by eexists|].
  by apply elem_of_nil in Hp.
Defined.

Lemma convertStorageIDMaps_map (UIDMap GIDMap : list idtools.IDMap) :
  util.convertStorageIDMaps UIDMap GIDMap = (map toRuntime UIDMap, map toRuntime GIDMap).
Proof.
  unfold util.convertStorageIDMaps. by rewrite !fold_left_snoc_map.
Qed.

Lemma convertRuntimeIDMaps_map (intSize : Z) (UIDMap GIDMap : list rspec.LinuxIDMapping) :
  util.convertRuntimeIDMaps intSize UIDMap GIDMap
  = (map (toStorage intSize) UIDMap, map (toStorage intSize) GIDMap).
Proof.
  unfold util.convertRuntimeIDMaps. by rewrite !fold_left_snoc_map.
Qed.

Lemma toRuntime_wf (l : list idtools.IDMap) :
  Forall util.LinuxIDMapping_wf (map toRuntime l).
Proof.
  apply Forall_forall. intros x [m [-> _]]%list_elem_of_fmap.
  unfold util.LinuxIDMapping_wf, util.is_uint32, toRuntime, util.uint32. simpl.
  repeat split; apply Z.mod_pos_bound; lia.
Qed.

(** X3. Whatever the storage ID maps hold, negative or large, the runtime ID
    maps made from them are well-formed [uint32] triples, as many as
    there were, and they survive the trip to storage ID maps and back. *)
Theorem convertStorageIDMaps_wellformed (intSize : Z)
    (UIDMap GIDMap : list idtools.IDMap) :
  intSize = 32 ∨ intSize = 64 →
  let '(uidmap, gidmap) := util.convertStorageIDMaps UIDMap GIDMap in
  Forall util.LinuxIDMapping_wf uidmap
  ∧ Forall util.LinuxIDMapping_wf gidmap
  ∧ length uidmap = length UIDMap
  ∧ length gidmap = length GIDMap
  ∧ util.convertStorageIDMaps
      (util.convertRuntimeIDMaps intSize uidmap gidmap).1
      (util.convertRuntimeIDMaps intSize uidmap gidmap).2 = (uidmap, gidmap).
Proof.
  intros Hsize. rewrite convertStorageIDMaps_map.
  split; [apply toRuntime_wf|]. split; [apply toRuntime_wf|].
  split; [apply length_map|]. split; [apply length_map|].
  rewrite convertRuntimeIDMaps_map, convertStorageIDMaps_map. cbn [fst snd].
  rewrite !(map_map (toStorage intSize) toRuntime).
  f_equal; (eapply map_id_on; [|apply toRuntime_wf]);
    intros [h c s] (Hh & Hc & Hs); unfold toRuntime, toStorage; simpl in *;
    by rewrite !uint32_int_id.
Qed.

Lemma convertStorageIDMaps_wellformed_witness :
  let '(uidmap, gidmap) :=
    util.convertStorageIDMaps [idtools.mkIDMap (-1) (2 ^ 40) 7] sampleGIDMap in
  Forall util.LinuxIDMapping_wf uidmap
  ∧ Forall util.LinuxIDMapping_wf gidmap
  ∧ length uidmap = 1%nat
  ∧ length gidmap = 1%nat
  ∧ util.convertStorageIDMaps
      (util.convertRuntimeIDMaps 64 uidmap gidmap).1
      (util.convertRuntimeIDMaps 64 uidmap gidmap).2 = (uidmap, gidmap).
Proof.
  exact (convertStorageIDMaps_wellformed 64 [idtools.mkIDMap (-1) (2 ^ 40) 7]
           sampleGIDMap (or_intror eq_refl)).
Defined.

Section RegistriesFacts.

Context {SystemContext : Type}.
Variable FindRegistry : SystemContext → string → result (option sysregistriesv2.Registry).
Variable RegistriesConfPath : SystemContext → string.
Variable Domain : reference.Named → string.

Local Abbreviation isReferenceBlocked :=
  (buildah.isReferenceBlocked FindRegistry RegistriesConfPath Domain).

Lemma isReferenceBlocked_true (ref : option ImageReference.t) (sc : SystemContext) :
  isReferenceBlocked ref sc = Ok true
  ↔ ∃ r named reginfo,
      ref = Some r
      ∧ ImageReference.Transport r = Some "docker"
      ∧ ImageReference.DockerReference r = Some named
      ∧ Domain named ≠ EmptyString
      ∧ FindRegistry sc (Domain named) = Ok (Some reginfo)
      ∧ sysregistriesv2.Blocked reginfo = true.
Proof.
  unfold buildah.isReferenceBlocked, buildah.isReferenceSomething,
    buildah.isRegistryBlocked.
  split.
  - destruct ref as [r|]; [|done].
    destruct (ImageReference.Transport r) as [name|] eqn:Ht; [|done].
    destruct (String.eqb_spec name "docker") as [->|]; [|done].
    destruct (ImageReference.DockerReference r) as [named|] eqn:Hd; [|done].
    destruct (String.eqb_spec (Domain named) EmptyString) as [|Hne]; [done|].
    cbn [negb].
    destruct (FindRegistry sc (Domain named)) as [[reginfo|]| |] eqn:Hf; try done.
    intros [= Hb]. by exists r, named, reginfo.
  - intros (r & named & reginfo & -> & -> & -> & Hne & Hf & Hb).
    cbn. destruct (String.eqb_spec (Domain named) EmptyString); [done|].
    cbn. by rewrite Hf, Hb.
Qed.

Lemma isReferenceBlocked_error (ref : option ImageReference.t) (sc : SystemContext)
    (msg : string) :
  isReferenceBlocked ref sc = Err msg →
  ∃ r named err,
    ref = Some r
    ∧ ImageReference.Transport r = Some "docker"
    ∧ ImageReference.DockerReference r = Some named
    ∧ FindRegistry sc (Domain named) = Err err.
Proof.
  unfold buildah.isReferenceBlocked, buildah.isReferenceSomething,
    buildah.isRegistryBlocked.
  destruct ref as [r|]; [|done].
  destruct (ImageReference.Transport r) as [name|] eqn:Ht; [|done].
  destruct (String.eqb_spec name "docker") as [->|]; [|done].
  destruct (ImageReference.DockerReference r) as [named|] eqn:Hd; [|done].
  destruct (negb (String.eqb (Domain named) EmptyString)); [|done].
  destruct (FindRegistry sc (Domain named)) as [[reginfo|]| |] eqn:Hf; try done.
  intros _. by exists r, named, msg0.
Qed.

End RegistriesFacts.

(** X4. A reference is reported as blocked in exactly one case: its
    transport is [docker], it has a docker reference with a non-empty
    domain, and the registries configuration lists a registry for that
    domain that is marked blocked.  A nil reference, another transport or
    an unlisted registry is never blocked; and the only error is that of
    the registry lookup for a docker reference. *)
Theorem isReferenceBlocked_spec {SystemContext : Type}
    (FindRegistry : SystemContext → string → result (option sysregistriesv2.Registry))
    (RegistriesConfPath : SystemContext → string)
    (Domain : reference.Named → string)
    (ref : option ImageReference.t) (sc : SystemContext) :
  (buildah.isReferenceBlocked FindRegistry RegistriesConfPath Domain ref sc = Ok true
   ↔ ∃ r named reginfo,
       ref = Some r
       ∧ ImageReference.Transport r = Some "docker"
       ∧ ImageReference.DockerReference r = Some named
       ∧ Domain named ≠ EmptyString
       ∧ FindRegistry sc (Domain named) = Ok (Some reginfo)
       ∧ sysregistriesv2.Blocked reginfo = true)
  ∧ (∀ msg,
       buildah.isReferenceBlocked FindRegistry RegistriesConfPath Domain ref sc = Err msg →
       ∃ r named err,
         ref = Some r
         ∧ ImageReference.Transport r = Some "docker"
         ∧ ImageReference.DockerReference r = Some named
         ∧ FindRegistry sc (Domain named) = Err err).
Proof.
  split; [apply isReferenceBlocked_true|apply isReferenceBlocked_error].
Qed.

Lemma isReferenceBlocked_spec_witness :
  buildah.isReferenceBlocked
    (fun (_ : unit) registry =>
       Ok (if String.eqb registry "registry.example.com"
           then Some (sysregistriesv2.mkRegistry true) else None))
    (fun _ => "/etc/containers/registries.conf")
    (fun named => match strings.Index (reference.Name named) "/" with
                   | Some m => strings.take m (reference.Name named)
                   | None => EmptyString
                   end)
    (Some (ImageReference.mk (Some "docker")
             (Some (reference.mkNamed "registry.example.com/myrepo/image" None None))))
    tt
  = Ok true.
Proof.
  apply (proj1 (isReferenceBlocked_spec
           (fun (_ : unit) registry =>
              Ok (if String.eqb registry "registry.example.com"
                  then Some (sysregistriesv2.mkRegistry true) else None))
           (fun _ => "/etc/containers/registries.conf")
           (fun named => match strings.Index (reference.Name named) "/" with
                   | Some m => strings.take m (reference.Name named)
                   | None => EmptyString
                   end)
           (Some (ImageReference.mk (Some "docker")
                    (Some (reference.mkNamed "registry.example.com/myrepo/image"
                             None None))))
           tt)).
  eexists _, _, _.
  split; [reflexivity|]. split; [reflexivity|]. split; [reflexivity|].
  split; [discriminate|]. split; reflexivity.
Defined.

Section SELinuxFacts.

Context {Store Reserved : Type}.
Variable GetEnabled : bool.
Variable store_Containers : Store → result (list string).
Variable ReserveLabel : Reserved → string → Reserved * option string.

Lemma ReserveSELinuxLabels_loop_ext
    (OpenBuilder OpenBuilder' : Store → string → buildah.openOutcome)
    (store : Store) (id : string) (containers : list string) :
  (∀ c, c ≠ id → OpenBuilder store c = OpenBuilder' store c) →
  ∀ reserved,
    buildah.ReserveSELinuxLabels_loop OpenBuilder ReserveLabel store id reserved containers
    = buildah.ReserveSELinuxLabels_loop OpenBuilder' ReserveLabel store id reserved containers.
Proof.
  intros Hext. induction containers as [|c rest IH]; intros reserved; [done|].
  cbn [buildah.ReserveSELinuxLabels_loop].
  destruct (String.eqb_spec id c) as [|Hne]; [apply IH|].
  rewrite <- (Hext c) by congruence.
  destruct (OpenBuilder store c); [|apply IH|done].
  destruct (ReserveLabel reserved ProcessLabel) as [reserved' [err|]]; [done|apply IH].
Qed.


End SELinuxFacts.

(** X5. [ReserveSELinuxLabels] never opens the container it is called for:
    what [OpenBuilder] would answer for [id] has no bearing on the labels
    reserved nor on the result. *)
Theorem ReserveSELinuxLabels_skips_own {Store Reserved : Type}
    (GetEnabled : bool)
    (store_Containers : Store → result (list string))
    (OpenBuilder OpenBuilder' : Store → string → buildah.openOutcome)
    (ReserveLabel : Reserved → string → Reserved * option string)
    (store : Store) (id : string) (reserved : Reserved) :
  (∀ c, c ≠ id → OpenBuilder store c = OpenBuilder' store c) →
  buildah.ReserveSELinuxLabels GetEnabled store_Containers OpenBuilder ReserveLabel
    store id reserved
  = buildah.ReserveSELinuxLabels GetEnabled store_Containers OpenBuilder' ReserveLabel
      store id reserved.
Proof.
  intros Hext. unfold buildah.ReserveSELinuxLabels.
  destruct GetEnabled; [|done].
  destruct (store_Containers store); try done.
  by apply ReserveSELinuxLabels_loop_ext.
Qed.

Lemma ReserveSELinuxLabels_skips_own_witness :
  buildah.ReserveSELinuxLabels true (fun _ : unit => Ok ["c1"; "me"; "c2"])
    sampleOpenBuilder sampleReserveLabel tt "me" []
  = buildah.ReserveSELinuxLabels true (fun _ : unit => Ok ["c1"; "me"; "c2"])
      (fun store c => if String.eqb c "me" then buildah.OpenFailed "locked"
                      else sampleOpenBuilder store c)
      sampleReserveLabel tt "me" [].
Proof.
  apply ReserveSELinuxLabels_skips_own.
  intros c Hc. by destruct (String.eqb_spec c "me").
Defined.



(* ===================================================================== *)
(** * More facts about the [strings] functions *)
(* ===================================================================== *)

Lemma genSplit_loop_no_sep (n : nat) (s sep : string) :
  strings.Index s sep = None → strings.genSplit_loop n s sep = [s].
Proof. intros H. destruct n; [done|]. simpl. by rewrite H. Qed.

(** A string without the separator is its own single part. *)
Lemma Split_no_sep (s sep : string) :
  strings.Index s sep = None → strings.Split s sep = [s].
Proof. intros H. rewrite Split_unfold. by apply genSplit_loop_no_sep. Qed.

Lemma Index_char_app_None (s t : string) (c : ascii) :
  strings.Index s (String c EmptyString) = None →
  strings.Index t (String c EmptyString) = None →
  strings.Index (s +:+ t) (String c EmptyString) = None.
Proof.
  intros Hs Ht. induction s as [|a s IH]; [done|].
  change (String a s +:+ t) with (String a (s +:+ t)).
  rewrite Index_eq in Hs. rewrite Index_eq. rewrite prefix_char in *.
  destruct (ascii_dec c a); [done|].
  destruct (strings.Index s (String c EmptyString)); [done|].
  by rewrite IH.
Qed.

Lemma Contains_false (s sep : string) :
  strings.Contains s sep = false ↔ strings.Index s sep = None.
Proof. unfold strings.Contains. by destruct (strings.Index s sep). Qed.

(** A clause [key=value] whose key holds no [=] is cut into its key and
    its value; without a comma it is the only clause of its filter. *)
Lemma SplitN_clause (key value : string) :
  strings.Contains key "=" = false →
  strings.SplitN (key +:+ "=" +:+ value) "=" 2 = [key; value].
Proof.
  intros Hk. rewrite SplitN_2 by done.
  change ("=" +:+ value) with (String "="%char value).
  rewrite Index_app_char by done.
  by rewrite str_take_app, str_drop_app_char.
Qed.

Lemma Split_clause (key value : string) :
  strings.Contains key "," = false → strings.Contains value "," = false →
  strings.Split (key +:+ "=" +:+ value) "," = [key +:+ "=" +:+ value].
Proof.
  intros Hk Hv. apply Split_no_sep. apply Contains_false in Hk, Hv.
  apply Index_char_app_None; [done|].
  change ("=" +:+ value) with (String "="%char value).
  rewrite Index_eq, prefix_char. simpl. by rewrite Hv.
Qed.

Lemma str_app_not_empty (s t : string) (c : ascii) : s +:+ String c t ≠ EmptyString.
Proof. by destruct s. Qed.

Lemma Count_loop_le (fuel : nat) (s sep : string) :
  sep ≠ EmptyString → (strings.Count_loop fuel s sep <= String.length s)%nat.
Proof.
  intros Hsep. revert s. induction fuel as [|f IH]; intros s; simpl; [lia|].
  destruct (strings.Index s sep) as [m|] eqn:Hm; [|lia].
  pose proof (Index_bound _ _ _ Hm) as Hb.
  pose proof (IH (strings.drop (m + String.length sep) s)) as Hle.
  rewrite str_drop_length in Hle.
  destruct sep; [done|]. simpl in *. lia.
Qed.

(** [Count] has all the fuel it needs. *)
Lemma Count_loop_fuel (f f' : nat) (s sep : string) :
  sep ≠ EmptyString → (String.length s <= f)%nat → (String.length s <= f')%nat →
  strings.Count_loop f s sep = strings.Count_loop f' s sep.
Proof.
  intros Hsep. revert f' s. induction f as [|f IH]; intros [|f'] s Hf Hf'; simpl.
  - done.
  - destruct s; [|simpl in Hf; lia]. by rewrite Index_empty.
  - destruct s; [|simpl in Hf'; lia]. by rewrite Index_empty.
  - destruct (strings.Index s sep) as [m|] eqn:Hm; [|done].
    pose proof (Index_bound _ _ _ Hm) as Hb.
    f_equal. apply IH; rewrite str_drop_length;
      destruct sep; try done; simpl in *; lia.
Qed.

(** [Split] cuts at the first separator and goes on with the rest. *)
Lemma Split_cons (s sep : string) (m : nat) :
  sep ≠ EmptyString → strings.Index s sep = Some m →
  strings.Split s sep
  = strings.take m s :: strings.Split (strings.drop (m + String.length sep) s) sep.
Proof.
  intros Hsep Hm. rewrite !Split_unfold. unfold strings.Count.
  pose proof (Index_bound _ _ _ Hm) as Hb.
  assert (Hsl : (1 <= String.length sep)%nat) by (destruct sep; [done|simpl; lia]).
  destruct (String.length s) as [|n] eqn:Hlen; [lia|].
  set (s' := strings.drop (m + String.length sep) s).
  assert (Hlen' : (String.length s' <= n)%nat).
  { unfold s'. rewrite str_drop_length. lia. }
  assert (Hc : strings.Count_loop (S n) s sep
               = S (strings.Count_loop (String.length s') s' sep)).
  { simpl. rewrite Hm. f_equal. by apply Count_loop_fuel. }
  rewrite Hc.
  pose proof (Count_loop_le (String.length s') s' sep Hsep) as Hle.
  replace (Nat.min (S (strings.Count_loop (String.length s') s' sep)) (S n))
    with (S (strings.Count_loop (String.length s') s' sep)) by lia.
  replace (Nat.min (strings.Count_loop (String.length s') s' sep) (String.length s'))
    with (strings.Count_loop (String.length s') s' sep) by lia.
  simpl. by rewrite Hm.
Qed.

(** A first clause without a comma is the first part of the filter. *)
Lemma Split_head (c rest : string) :
  strings.Contains c "," = false →
  strings.Split (c +:+ "," +:+ rest) "," = c :: strings.Split rest ",".
Proof.
  intros Hc. change ("," +:+ rest) with (String ","%char rest).
  rewrite (Split_cons _ _ (String.length c)); [|done|by apply Index_app_char].
  by rewrite str_take_app, str_drop_app_char.
Qed.

(* ===================================================================== *)
(** * Identifiers and the boolean predicates *)
(* ===================================================================== *)

Lemma str_take_length (n : nat) (s : string) :
  String.length (strings.take n s) = Nat.min n (String.length s).
Proof.
  revert s. induction n as [|n IH]; intros [|c s]; simpl; try done.
  by rewrite IH.
Qed.

Lemma str_take_prefix (n : nat) (s : string) : String.prefix (strings.take n s) s = true.
Proof.
  revert s. induction n as [|n IH]; intros [|c s]; simpl; try done.
  destruct (ascii_dec c c); [apply IH|done].
Qed.

Lemma str_prefix_refl (s : string) : String.prefix s s = true.
Proof. induction s as [|c s IH]; simpl; [done|]. by destruct (ascii_dec c c). Qed.

(** X7. [shortID] returns the first 12 bytes of an identifier, the whole of
    it when it has no more: the result is a prefix of the identifier of
    length [min 12 (len id)], it matches the identifier under
    [matchesID], and truncating again changes nothing. *)
Theorem shortID_spec (id : string) :
  String.length (images.shortID id) = Nat.min 12 (String.length id)
  ∧ images.matchesID id (images.shortID id) = true
  ∧ images.shortID (images.shortID id) = images.shortID id.
Proof.
  unfold images.shortID, images.matchesID, strings.HasPrefix.
  destruct (Nat.ltb_spec 12 (String.length id)) as [Hlt|Hge].
  - rewrite str_take_length. split; [done|]. split; [apply str_take_prefix|].
    destruct (Nat.ltb_spec 12 (Nat.min 12 (String.length id))); [lia|done].
  - split; [lia|]. split; [apply str_prefix_refl|].
    destruct (Nat.ltb_spec 12 (String.length id)); [lia|done].
Qed.

(* ===================================================================== *)
(** * The filter parser, clause by clause *)
(* ===================================================================== *)

Section ParserFacts.

Context {Store : Type}.
Variable ParseNormalizedNamed : string → option reference.Named.
Variable inspectImage : Store → string → images.inspectOutcome.

Local Abbreviation setFilterDate :=
  (images.setFilterDate ParseNormalizedNamed inspectImage).
Local Abbreviation parseFilter_param :=
  (images.parseFilter_param ParseNormalizedNamed inspectImage).
Local Abbreviation parseFilter :=
  (images.parseFilter ParseNormalizedNamed inspectImage).
Local Abbreviation matchesFilter :=
  (images.matchesFilter ParseNormalizedNamed inspectImage).

(** A filter without a comma is parsed as its single clause. *)
Lemma parseFilter_single (store : Store) (imgs : list storage.Image) (filter : string) :
  strings.Contains filter "," = false →
  parseFilter store imgs filter = parseFilter_param store imgs filterParams.new filter.
Proof.
  intros Hc. unfold images.parseFilter.
  rewrite Split_no_sep by (by apply Contains_false).
  cbn [images.parseFilter_loop].
  by destruct (parseFilter_param store imgs filterParams.new filter).
Qed.

Lemma parseFilter_clause (store : Store) (imgs : list storage.Image) (key value : string) :
  strings.Contains key "," = false → strings.Contains value "," = false →
  parseFilter store imgs (key +:+ "=" +:+ value)
  = parseFilter_param store imgs filterParams.new (key +:+ "=" +:+ value).
Proof.
  intros Hk Hv. unfold images.parseFilter. rewrite Split_clause by done.
  cbn [images.parseFilter_loop].
  by destruct (parseFilter_param store imgs filterParams.new (key +:+ "=" +:+ value)).
Qed.




(** X9. [dangling] and [readonly] take [true] or [false] and nothing else:
    any other value is refused with [invalid filter: '<key>=[<value>]']. *)
Theorem parseFilter_invalid_boolean (store : Store) (imgs : list storage.Image)
    (key value : string) :
  key = "dangling" ∨ key = "readonly" →
  value ≠ "true" → value ≠ "false" →
  strings.Contains value "," = false →
  parseFilter store imgs (key +:+ "=" +:+ value)
  = Err ("invalid filter: '" +:+ key +:+ "=[" +:+ value +:+ "]'").
Proof.
  intros Hkey Ht Hf Hv.
  apply String.eqb_neq in Ht, Hf.
  destruct Hkey as [-> | ->]; rewrite parseFilter_clause by done;
    unfold images.parseFilter_param; rewrite SplitN_clause by done;
    cbn -[String.eqb String.append]; cbn [String.eqb Ascii.eqb Bool.eqb];
    by rewrite Ht, Hf.
Qed.

(** X10. [readonly=true] and [readonly=false] parse and keep exactly the
    images whose read-only flag is the value; [dangling=true] and
    [dangling=false] parse and keep exactly the rows whose display name
    is, respectively is not, empty. *)
Theorem parseFilter_boolean (store : Store) (imgs : list storage.Image) (v : bool) :
  let value := if v then "true" else "false" in
  ∃ readonly dangling,
    parseFilter store imgs ("readonly=" +:+ value) = Ok readonly
    ∧ parseFilter store imgs ("dangling=" +:+ value) = Ok dangling
    ∧ ∀ image name,
        matchesFilter store image name (Some readonly)
        = Bool.eqb (storage.ReadOnly image) v
        ∧ matchesFilter store image name (Some dangling)
          = Bool.eqb (String.eqb name EmptyString) v.
Proof.
  destruct v; cbn zeta; eexists; eexists;
    (split; [vm_compute; reflexivity|]); (split; [vm_compute; reflexivity|]);
    intros image name; unfold images.matchesFilter; cbn;
    unfold images.matchesReadOnly, images.matchesDangling; cbn;
    by destruct (storage.ReadOnly image), (String.eqb name EmptyString).
Qed.

Lemma parseFilter_dates (store : Store) (imgs : list storage.Image)
    (value : string) (date : time.Time) :
  strings.Contains value "," = false →
  setFilterDate store imgs value = Ok date →
  parseFilter store imgs ("before=" +:+ value)
  = Ok (filterParams.mk EmptyString EmptyString value EmptyString date time.zero
          EmptyString EmptyString)
  ∧ parseFilter store imgs ("since=" +:+ value)
    = Ok (filterParams.mk EmptyString EmptyString EmptyString value time.zero date
            EmptyString EmptyString).
Proof.
  intros Hv Hd.
  change ("before=" +:+ value) with ("before" +:+ "=" +:+ value).
  change ("since=" +:+ value) with ("since" +:+ "=" +:+ value).
  split; rewrite (parseFilter_clause store imgs _ value) by done;
    unfold images.parseFilter_param;
    rewrite (SplitN_clause _ value) by done;
    cbn -[images.setFilterDate]; by rewrite Hd.
Qed.

Lemma matchesFilter_dates (store : Store) (image : storage.Image) (name value : string)
    (date : time.Time) :
  value ≠ EmptyString →
  matchesFilter store image name
    (Some (filterParams.mk EmptyString EmptyString value EmptyString date time.zero
             EmptyString EmptyString))
  = (time.IsZero (storage.Created image) || time.Before (storage.Created image) date)
  ∧ matchesFilter store image name
      (Some (filterParams.mk EmptyString EmptyString EmptyString value time.zero date
               EmptyString EmptyString))
    = (time.IsZero (storage.Created image) || time.After (storage.Created image) date).
Proof.
  intros Hne. apply String.eqb_neq in Hne.
  unfold images.matchesFilter, images.matchesBeforeImage, images.matchesSinceImage.
  cbn -[String.eqb time.IsZero time.Before time.After]. rewrite Hne.
  change (String.eqb EmptyString EmptyString) with true. cbn [negb andb].
  split;
    by destruct (time.IsZero (storage.Created image)),
         (time.Before (storage.Created image) date),
         (time.After (storage.Created image) date).
Qed.

Lemma parseFilter_raw (store : Store) (imgs : list storage.Image) (value : string) :
  strings.Contains value "," = false →
  parseFilter store imgs ("label=" +:+ value)
  = Ok (filterParams.mk EmptyString value EmptyString EmptyString time.zero time.zero
          EmptyString EmptyString)
  ∧ parseFilter store imgs ("reference=" +:+ value)
    = Ok (filterParams.mk EmptyString EmptyString EmptyString EmptyString time.zero
            time.zero value EmptyString).
Proof.
  intros Hv.
  change ("label=" +:+ value) with ("label" +:+ "=" +:+ value).
  change ("reference=" +:+ value) with ("reference" +:+ "=" +:+ value).
  split; rewrite (parseFilter_clause store imgs _ value) by done;
    unfold images.parseFilter_param;
    by rewrite (SplitN_clause _ value) by done.
Qed.


(** X12. A [before=<name>] or [since=<name>] clause whose name resolves to a
    date keeps the images created strictly before, respectively strictly
    after, that date, and the images whose creation time is zero. *)
Theorem parseFilter_before_since (store : Store) (imgs : list storage.Image)
    (value : string) (date : time.Time) :
  strings.Contains value "," = false →
  value ≠ EmptyString →
  setFilterDate store imgs value = Ok date →
  ∃ before since,
    parseFilter store imgs ("before=" +:+ value) = Ok before
    ∧ parseFilter store imgs ("since=" +:+ value) = Ok since
    ∧ ∀ image name,
        matchesFilter store image name (Some before)
        = (time.IsZero (storage.Created image)
           || time.Before (storage.Created image) date)
        ∧ matchesFilter store image name (Some since)
          = (time.IsZero (storage.Created image)
             || time.After (storage.Created image) date).
Proof.
  intros Hv Hne Hd.
  destruct (parseFilter_dates store imgs value date Hv Hd) as [Hb Hs].
  eexists; eexists. split; [exact Hb|]. split; [exact Hs|].
  intros image name. by apply matchesFilter_dates.
Qed.

Lemma Contains_clause (key value : string) :
  strings.Contains key "," = false → strings.Contains value "," = false →
  strings.Contains (key +:+ "=" +:+ value) "," = false.
Proof.
  intros Hk Hv. apply Contains_false. apply Contains_false in Hk, Hv.
  apply Index_char_app_None; [done|].
  change ("=" +:+ value) with (String "="%char value).
  rewrite Index_eq, prefix_char. simpl. by rewrite Hv.
Qed.

(** X13. A [label=<key>=<value>] clause keeps exactly the images whose
    configuration can be inspected and carries the label [<key>] with
    the value [<value>]. *)
Theorem parseFilter_label_value (store : Store) (imgs : list storage.Image)
    (key value : string) :
  strings.Contains key "=" = false →
  strings.Contains key "," = false →
  strings.Contains value "," = false →
  ∃ p,
    parseFilter store imgs ("label=" +:+ key +:+ "=" +:+ value) = Ok p
    ∧ ∀ image name,
        matchesFilter store image name (Some p) = true
        ↔ ∃ info,
            inspectImage store (storage.ID image) = images.Inspected info
            ∧ types.Labels info !! key = Some value.
Proof.
  intros Hke Hkc Hv.
  destruct (parseFilter_raw store imgs (key +:+ "=" +:+ value)
              (Contains_clause key value Hkc Hv)) as [Hp _].
  eexists. split; [exact Hp|]. intros image name.
  unfold images.matchesFilter. cbn -[String.eqb String.append images.matchesLabel].
  change ("=" +:+ value) with (String "="%char value).
  destruct (String.eqb_spec (key +:+ String "="%char value) EmptyString) as [He|_];
    [by apply str_app_not_empty in He|].
  change (String.eqb EmptyString EmptyString) with true. cbn [negb andb].
  destruct (images.matchesLabel inspectImage store image (key +:+ String "="%char value))
    eqn:Hm; cbn [negb].
  - split; [intros _|done]. apply matchesLabel_spec in Hm as (info & m & Hi & Hidx & Hl).
    rewrite Index_app_char in Hidx by done. injection Hidx as <-.
    rewrite str_take_app in Hl.
    change (S (String.length key))
      with (1 + String.length key)%nat in Hl.
    rewrite Nat.add_comm in Hl.
    change 1%nat with (String.length (String "="%char EmptyString)) in Hl.
    rewrite str_drop_app_char in Hl. by exists info.
  - split; [done|]. intros (info & Hi & Hl).
    assert (images.matchesLabel inspectImage store image (key +:+ String "="%char value)
            = true); [|congruence].
    apply matchesLabel_spec. exists info, (String.length key).
    split; [done|]. split; [by apply Index_app_char|].
    rewrite str_take_app.
    change (S (String.length key)) with (1 + String.length key)%nat.
    rewrite Nat.add_comm.
    change 1%nat with (String.length (String "="%char EmptyString)).
    by rewrite str_drop_app_char.
Qed.

(** X14. A [reference=<pattern>] clause keeps exactly the rows whose name
    matches the pattern the way a name argument is matched. *)
Theorem parseFilter_reference_pattern (store : Store) (imgs : list storage.Image)
    (pattern : string) :
  strings.Contains pattern "," = false →
  ∃ p,
    parseFilter store imgs ("reference=" +:+ pattern) = Ok p
    ∧ ∀ image name,
        matchesFilter store image name (Some p)
        = images.matchesReference ParseNormalizedNamed name pattern.
Proof.
  intros Hv. destruct (parseFilter_raw store imgs pattern Hv) as [_ Hp].
  eexists. split; [exact Hp|]. intros image name.
  unfold images.matchesFilter. cbn -[String.eqb images.matchesReference].
  change (String.eqb EmptyString EmptyString) with true. cbn [negb andb].
  destruct (String.eqb_spec pattern EmptyString) as [->|Hne]; [done|].
  cbn [negb andb].
  by destruct (images.matchesReference ParseNormalizedNamed name pattern).
Qed.

(** X15. The clauses of a filter are read from left to right and the first
    one that fails ends the parse: whatever follows a failing first
    clause, the outcome is that of the clause alone. *)
Theorem parseFilter_first_error (store : Store) (imgs : list storage.Image)
    (clause rest : string) :
  strings.Contains clause "," = false →
  is_Ok (parseFilter store imgs clause) = false →
  parseFilter store imgs (clause +:+ "," +:+ rest) = parseFilter store imgs clause.
Proof.
  intros Hc. rewrite (parseFilter_single store imgs clause Hc). intros Hfail.
  unfold images.parseFilter. rewrite Split_head by done.
  cbn [images.parseFilter_loop].
  by destruct (parseFilter_param store imgs filterParams.new clause).
Qed.

(** X16. When a filter names the same key twice the later clause replaces
    the earlier one: provided the first clause parses, the filter means
    what its second clause means alone. *)
Theorem parseFilter_last_wins (store : Store) (imgs : list storage.Image)
    (key v1 v2 : string) :
  strings.Contains key "=" = false →
  strings.Contains key "," = false →
  strings.Contains v1 "," = false →
  strings.Contains v2 "," = false →
  is_Ok (parseFilter store imgs (key +:+ "=" +:+ v1)) = true →
  parseFilter store imgs ((key +:+ "=" +:+ v1) +:+ "," +:+ (key +:+ "=" +:+ v2))
  = parseFilter store imgs (key +:+ "=" +:+ v2).
Proof.
  intros Hke Hkc Hv1 Hv2.
  rewrite (parseFilter_clause store imgs key v1) by done.
  rewrite (parseFilter_clause store imgs key v2) by done.
  unfold images.parseFilter.
  rewrite Split_head by (by apply Contains_clause).
  rewrite Split_clause by done.
  cbn [images.parseFilter_loop].
  unfold images.parseFilter_param. rewrite !SplitN_clause by done.
  cbn -[String.eqb String.append images.setFilterDate].
  repeat match goal with
         | |- context [String.eqb (strings.TrimSpace key) ?k] =>
             destruct (String.eqb (strings.TrimSpace key) k)
         end;
    repeat match goal with
           | |- context [String.eqb ?v ?k || _] => destruct (String.eqb v k)
           | |- context [_ || String.eqb ?v ?k] => destruct (String.eqb v k)
           | |- context [setFilterDate store imgs ?v] =>
               destruct (setFilterDate store imgs v)
           end; cbn; try done.
Qed.


(** X27. The clauses of a filter are joined by [and]: a filter of two
    clauses with different keys, each of which parses, parses, and it
    keeps exactly what both clauses keep. *)
Theorem parseFilter_conjunction (store : Store) (imgs : list storage.Image)
    (k1 v1 k2 v2 : string) (p1 p2 : filterParams.t) :
  strings.Contains k1 "=" = false → strings.Contains k1 "," = false →
  strings.Contains v1 "," = false →
  strings.Contains k2 "=" = false → strings.Contains k2 "," = false →
  strings.Contains v2 "," = false →
  strings.TrimSpace k1 ≠ strings.TrimSpace k2 →
  parseFilter store imgs (k1 +:+ "=" +:+ v1) = Ok p1 →
  parseFilter store imgs (k2 +:+ "=" +:+ v2) = Ok p2 →
  ∃ p,
    parseFilter store imgs ((k1 +:+ "=" +:+ v1) +:+ "," +:+ (k2 +:+ "=" +:+ v2)) = Ok p
    ∧ ∀ image name,
        matchesFilter store image name (Some p)
        = matchesFilter store image name (Some p1)
          && matchesFilter store image name (Some p2).
Proof.
  intros Hk1e Hk1c Hv1 Hk2e Hk2c Hv2 Hdiff.
  rewrite (parseFilter_clause store imgs k1 v1) by done.
  rewrite (parseFilter_clause store imgs k2 v2) by done.
  unfold images.parseFilter.
  rewrite Split_head by (by apply Contains_clause).
  rewrite Split_clause by done.
  cbn [images.parseFilter_loop].
  unfold images.parseFilter_param. rewrite !SplitN_clause by done.
  cbn -[String.eqb String.append images.setFilterDate].
  repeat match goal with
         | |- context [String.eqb (strings.TrimSpace ?k) ?c] =>
             destruct (String.eqb_spec (strings.TrimSpace k) c);
             try congruence;
             cbn -[String.eqb String.append images.setFilterDate]
         end;
    try discriminate;
    repeat match goal with
           | |- context [String.eqb ?v "true" || String.eqb ?v "false"] =>
               destruct (String.eqb v "true" || String.eqb v "false");
               cbn -[String.eqb String.append images.setFilterDate]
           | |- context [setFilterDate store imgs ?v] =>
               destruct (setFilterDate store imgs v);
               cbn -[String.eqb String.append images.setFilterDate]
           end;
    try discriminate;
    intros [= <-] [= <-]; (eexists; split; [reflexivity|]);
    intros image name; unfold images.matchesFilter;
    cbn -[String.eqb images.matchesDangling images.matchesLabel
          images.matchesBeforeImage images.matchesSinceImage
          images.matchesReference images.matchesReadOnly];
    unfold images.matchesBeforeImage, images.matchesSinceImage;
    cbn -[String.eqb images.matchesDangling images.matchesLabel
          images.matchesReference images.matchesReadOnly
          time.IsZero time.Before time.After];
    change (String.eqb EmptyString EmptyString) with true; cbn [negb andb];
    repeat match goal with
           | |- context [String.eqb ?v EmptyString] => destruct (String.eqb v EmptyString)
           end;
    cbn [negb andb];
    repeat match goal with
           | |- context [images.matchesDangling ?a ?b] =>
               destruct (images.matchesDangling a b)
           | |- context [images.matchesLabel ?a ?b ?c ?d] =>
               destruct (images.matchesLabel a b c d)
           | |- context [images.matchesReference ?a ?b ?c] =>
               destruct (images.matchesReference a b c)
           | |- context [images.matchesReadOnly ?a ?b] =>
               destruct (images.matchesReadOnly a b)
           | |- context [time.IsZero ?a || ?b] => destruct (time.IsZero a || b)
           end;
    reflexivity.
Qed.

End ParserFacts.

Lemma parseFilter_conjunction_witness :
  ∃ p,
    samples.parseFilter tt samples.theImages "label=maintainer=alice,dangling=false" = Ok p
    ∧ ∀ image name,
        samples.matchesFilter tt image name (Some p)
        = samples.matchesFilter tt image name
            (Some (filterParams.mk EmptyString "maintainer=alice" EmptyString EmptyString
                     time.zero time.zero EmptyString EmptyString))
          && samples.matchesFilter tt image name
               (Some (filterParams.mk "false" EmptyString EmptyString EmptyString
                        time.zero time.zero EmptyString EmptyString)).
Proof.
  apply (parseFilter_conjunction samples.parseReference samples.inspectImage tt
           samples.theImages "label" "maintainer=alice" "dangling" "false");
    try reflexivity.
  discriminate.
Defined.



Lemma parseFilter_invalid_boolean_witness :
  samples.parseFilter tt samples.theImages "dangling=maybe"
  = Err "invalid filter: 'dangling=[maybe]'".
Proof.
  apply (parseFilter_invalid_boolean samples.parseReference samples.inspectImage tt
           samples.theImages "dangling" "maybe");
    [by left|discriminate|discriminate|reflexivity].
Defined.


Lemma parseFilter_before_since_witness :
  ∃ before since,
    samples.parseFilter tt samples.theImages "before=myrepo/image" = Ok before
    ∧ samples.parseFilter tt samples.theImages "since=myrepo/image" = Ok since
    ∧ ∀ image name,
        samples.matchesFilter tt image name (Some before)
        = (time.IsZero (storage.Created image)
           || time.Before (storage.Created image) samples.t2022)
        ∧ samples.matchesFilter tt image name (Some since)
          = (time.IsZero (storage.Created image)
             || time.After (storage.Created image) samples.t2022).
Proof.
  apply (parseFilter_before_since samples.parseReference samples.inspectImage tt
           samples.theImages "myrepo/image" samples.t2022);
    [reflexivity|discriminate|reflexivity].
Defined.

Lemma parseFilter_label_value_witness :
  ∃ p,
    samples.parseFilter tt samples.theImages "label=maintainer=alice" = Ok p
    ∧ ∀ image name,
        samples.matchesFilter tt image name (Some p) = true
        ↔ ∃ info,
            samples.inspectImage tt (storage.ID image) = images.Inspected info
            ∧ types.Labels info !! "maintainer" = Some "alice".
Proof.
  apply (parseFilter_label_value samples.parseReference samples.inspectImage tt
           samples.theImages "maintainer" "alice"); reflexivity.
Defined.

Lemma parseFilter_reference_pattern_witness :
  ∃ p,
    samples.parseFilter tt samples.theImages "reference=myrepo/image:v1" = Ok p
    ∧ ∀ image name,
        samples.matchesFilter tt image name (Some p)
        = samples.matchesReference name "myrepo/image:v1".
Proof.
  apply (parseFilter_reference_pattern samples.parseReference samples.inspectImage tt
           samples.theImages "myrepo/image:v1"); reflexivity.
Defined.

Lemma parseFilter_first_error_witness :
  samples.parseFilter tt samples.theImages "bogus=1,dangling=true"
  = samples.parseFilter tt samples.theImages "bogus=1".
Proof.
  apply (parseFilter_first_error samples.parseReference samples.inspectImage tt
           samples.theImages "bogus=1" "dangling=true"); reflexivity.
Defined.

Lemma parseFilter_last_wins_witness :
  samples.parseFilter tt samples.theImages "dangling=true,dangling=false"
  = samples.parseFilter tt samples.theImages "dangling=false".
Proof.
  apply (parseFilter_last_wins samples.parseReference samples.inspectImage tt
           samples.theImages "dangling" "true" "false"); reflexivity.
Defined.

(* ===================================================================== *)
(** * The row projector, image by image *)
(* ===================================================================== *)

Section ProjectorFacts.

Context {Store SystemContext : Type}.
Variable ParseNormalizedNamed : string → option reference.Named.
Variable inspectImage : Store → string → images.inspectOutcome.
Variable getDateAndSize : SystemContext → Store → storage.Image → time.Time * Z.
Variable imageIsParent : SystemContext → Store → storage.Image → bool.
Variable HumanDurationSince : time.Time → string.

Local Abbreviation matchesReference := (images.matchesReference ParseNormalizedNamed).
Local Abbreviation matchesFilter :=
  (images.matchesFilter ParseNormalizedNamed inspectImage).
Local Abbreviation outputImages_name :=
  (images.outputImages_name ParseNormalizedNamed inspectImage).
Local Abbreviation outputImages_image :=
  (images.outputImages_image ParseNormalizedNamed inspectImage getDateAndSize
     imageIsParent HumanDurationSince).
Local Abbreviation outputImages_loop :=
  (images.outputImages_loop ParseNormalizedNamed inspectImage getDateAndSize
     imageIsParent HumanDurationSince).

Local Abbreviation pairOf := (repoTagOf ParseNormalizedNamed inspectImage).

Lemma pairOf_mono (store : Store) (image : storage.Image)
    (filters : option filterParams.t) (argName : string) (names names' : list string)
    (rt : string * string) :
  (∀ n, n ∈ names → n ∈ names') →
  pairOf store image filters argName names rt →
  pairOf store image filters argName names' rt.
Proof. intros Hsub (name & named & Hin & H). exists name, named. split; [auto|done]. Qed.

Lemma outputImages_names_spec (store : Store) (image : storage.Image)
    (filters : option filterParams.t) (argName : string) (names : list string) :
  ∀ ns0,
    ∃ added,
      let ns := fold_left (outputImages_name store image filters argName) names ns0 in
      images.nfound ns
      = images.nfound ns0 || existsb (nameMatches ParseNormalizedNamed argName) names
      ∧ images.imageReposAndTags ns = images.imageReposAndTags ns0 ++ added
      ∧ images.filterMatched ns
        = images.filterMatched ns0 || negb (length added =? 0)%nat
      ∧ (length added <= length names)%nat
      ∧ Forall (pairOf store image filters argName names) added.
Proof.
  induction names as [|name names IH]; intros ns0.
  - exists []. cbn. rewrite !orb_false_r, app_nil_r. repeat split; constructor.
  - cbn [fold_left].
    remember (outputImages_name store image filters argName ns0 name) as ns1 eqn:Hns1.
    destruct (IH ns1) as (added & Hf & Hr & Hm & Hl & Hall).
    assert (Hall' : Forall (pairOf store image filters argName (name :: names)) added).
    { eapply Forall_impl; [exact Hall|]. intros rt. apply pairOf_mono.
      intros n Hn. apply elem_of_cons. by right. }
    cbn zeta in *. rewrite Hf, Hr, Hm. clear Hf Hr Hm IH Hall.
    unfold images.outputImages_name in Hns1.
    cbn [existsb length].
    assert (Hnm : nameMatches ParseNormalizedNamed argName name
                  = negb (String.eqb name EmptyString)
                    && match ParseNormalizedNamed name with
                       | Some _ => true
                       | None => false
                       end
                    && matchesReference name argName) by reflexivity.
    rewrite Hnm. clear Hnm.
    destruct (String.eqb name EmptyString) eqn:Hname.
    { subst ns1. exists added. cbn [negb andb orb]. repeat split; try done. lia. }
    destruct (ParseNormalizedNamed name) as [named|] eqn:Hp.
    2:{ subst ns1. exists added. cbn [negb andb orb]. repeat split; try done. lia. }
    destruct (matchesReference name argName) eqn:Href.
    2:{ subst ns1. exists added. cbn [negb andb orb]. repeat split; try done. lia. }
    destruct (matchesFilter store image name filters) eqn:Hfil; subst ns1;
      cbn [negb andb orb images.nfound images.filterMatched images.imageReposAndTags].
    + exists ((reference.Name named,
               match reference.Tag named with Some t => t | None => EmptyString end)
              :: added).
      rewrite <- app_assoc, !orb_true_r. cbn [negb andb orb length Nat.eqb].
      repeat split; try done.
      * lia.
      * constructor; [|done]. exists name, named.
        repeat split; try done. apply elem_of_cons. by left.
    + exists added. rewrite !orb_true_r. repeat split; try done. lia.
Qed.

Local Abbreviation rowOf' := (rowOf ParseNormalizedNamed inspectImage).
Local Abbreviation dataOf' := (dataOf getDateAndSize HumanDurationSince).
Local Abbreviation entryOf' := (entryOf getDateAndSize HumanDurationSince).

(** The time [outputImages] shows for an image. *)
Lemma createdTime_shown (createdTime inspectedTime : time.Time) :
  time.Local
    (if negb (time.IsZero inspectedTime)
        && negb (time.Equal createdTime inspectedTime)
     then inspectedTime else createdTime)
  = shownTime inspectedTime createdTime.
Proof.
  unfold shownTime, time.Local.
  destruct (time.IsZero inspectedTime); [done|]. cbn [negb andb].
  destruct (time.Equal createdTime inspectedTime) eqn:He; [|done].
  destruct createdTime as [s n], inspectedTime as [s' n'].
  unfold time.Equal in He. cbn in He.
  apply andb_true_iff in He as [->%Z.eqb_eq ->%Z.eqb_eq]. done.
Qed.

(** One turn of the loop over the images: it returns, and what it adds
    to the state is read off the image. *)
Lemma outputImages_image_spec (systemContext : SystemContext) (store : Store)
    (filters : option filterParams.t) (argName : string) (opts : imageOptions.t)
    (st : images.loopState) (image : storage.Image) :
  ∃ new newJson,
    outputImages_image systemContext store filters argName opts st image
    = Ok (images.mkLoopState
            (images.found st
             || existsb (nameMatches ParseNormalizedNamed argName) (storage.Names image))
            (images.readOnlySeen st || storage.ReadOnly image)
            (images.imagesParams st ++ new)
            (images.jsonImages st ++ newJson))
    ∧ Forall (fun row =>
                rowOf' store filters argName opts image row
                ∧ dataOf' systemContext store image
                    (imageOutputParams.CreatedAtRaw row) (imageOutputParams.CreatedAt row)
                    (imageOutputParams.Size row)) new
    ∧ (length new <= Nat.max 1 (length (storage.Names image)))%nat
    ∧ (imageOptions.quiet opts = true → (length new <= 1)%nat)
    ∧ (imageOptions.json opts = true → new = [])
    ∧ (imageOptions.json opts = false → newJson = [])
    ∧ (length newJson <= 1)%nat
    ∧ Forall (entryOf' systemContext store image) newJson.
Proof.
  unfold images.outputImages_image.
  unfold entryOf, dataOf.
  destruct (getDateAndSize systemContext store image) as [inspectedTime size].
  cbv zeta. rewrite createdTime_shown.
  destruct (outputImages_names_spec store image filters argName (storage.Names image)
              (images.mkNamesState (images.found st) false []))
    as (added & Hf & Hr & Hm & Hl & Hall).
  cbv zeta in Hf, Hr, Hm.
  cbn [images.nfound images.filterMatched images.imageReposAndTags orb app] in Hf, Hr, Hm.
  rewrite Hf, Hr, Hm. clear Hf Hr Hm.
  destruct (formattedSize_ok size) as [sizeString Hsize]. rewrite Hsize.
  destruct (negb (imageOptions.all opts) && (length (storage.Names image) =? 0)%nat
            && imageIsParent systemContext store image) eqn:Hskip.
  { exists [], [].
    apply andb_true_iff in Hskip as [[_ Hn]%andb_true_iff _].
    apply Nat.eqb_eq, nil_length_inv in Hn. rewrite Hn.
    cbn [existsb length]. rewrite orb_false_r, !app_nil_r.
    repeat split; try done; try constructor; simpl; lia. }
  destruct (negb (negb (length added =? 0)%nat
                  || (length (storage.Names image) =? 0)%nat
                     && matchesFilter store image EmptyString filters)) eqn:Hfm.
  { exists [], []. rewrite !app_nil_r.
    repeat split; try done; try constructor; simpl; lia. }
  apply negb_false_iff in Hfm.
  destruct (imageOptions.json opts) eqn:Hjson.
  { eexists [], [_]. cbn. rewrite (app_nil_r (images.imagesParams st)).
    repeat split; try done; try constructor; try done; try lia. }
  eexists _, []. cbn -[Nat.max]. rewrite (app_nil_r (images.jsonImages st)).
  split; [reflexivity|].
  assert (Hpairs : Forall (fun rt : string * string =>
             (rt = (EmptyString, EmptyString)
              ∧ storage.Names image = []
              ∧ matchesFilter store image EmptyString filters = true)
             ∨ pairOf store image filters argName (storage.Names image) rt)
            (if (length added =? 0)%nat then [(EmptyString, EmptyString)] else added)).
  { destruct (Nat.eqb_spec (length added) 0) as [Hz|Hz].
    - constructor; [|constructor]. left. split; [done|].
      cbn [negb orb] in Hfm. apply andb_true_iff in Hfm as [Hn Hmf].
      by apply Nat.eqb_eq, nil_length_inv in Hn.
    - eapply Forall_impl; [exact Hall|]. intros rt Hrt. by right. }
  assert (Hlen : (length (if (length added =? 0)%nat
                          then [(EmptyString, EmptyString)] else added)
                  <= Nat.max 1 (length (storage.Names image)))%nat).
  { destruct (Nat.eqb_spec (length added) 0); simpl; lia. }
  set (pairs := if (length added =? 0)%nat then [(EmptyString, EmptyString)] else added) in *.
  assert (Hlisted : Forall (fun rt : string * string =>
             (rt = (EmptyString, EmptyString)
              ∧ storage.Names image = []
              ∧ matchesFilter store image EmptyString filters = true)
             ∨ pairOf store image filters argName (storage.Names image) rt)
            (if imageOptions.quiet opts then take 1 pairs else pairs)).
  { destruct (imageOptions.quiet opts); [by apply Forall_take|done]. }
  assert (Hllen : (length (if imageOptions.quiet opts then take 1 pairs else pairs)
                   <= length pairs)%nat).
  { destruct (imageOptions.quiet opts); [rewrite length_take|]; lia. }
  split; [|split; [|split; [|split; [|split; [|split]]]]].
  - apply Forall_map. eapply Forall_impl; [exact Hlisted|].
    intros [repo tag] Hrt. unfold rowOf, displayID. cbn.
    repeat split; try done.
    destruct Hrt as [([= -> ->] & Hn & Hmf)|(name & named & Hin & Hp & [= -> ->] & Hr & Hmf)].
    + by left.
    + right. by exists name, named.
  - rewrite length_map. lia.
  - intros Hq. rewrite length_map, Hq, length_take. lia.
  - done.
  - done.
  - simpl. lia.
  - constructor.
Qed.

(** The loop over the images: it returns, and what it adds to the state
    is read off the images. *)
Lemma outputImages_loop_spec (systemContext : SystemContext) (store : Store)
    (filters : option filterParams.t) (argName : string) (opts : imageOptions.t)
    (imgs : list storage.Image) :
  ∀ st,
    ∃ new newJson,
      outputImages_loop systemContext store filters argName opts st imgs
      = Ok (images.mkLoopState
              (images.found st || anyNameMatches ParseNormalizedNamed argName imgs)
              (images.readOnlySeen st || existsb storage.ReadOnly imgs)
              (images.imagesParams st ++ new)
              (images.jsonImages st ++ newJson))
      ∧ Forall (fun row =>
                  ∃ image, image ∈ imgs
                    ∧ rowOf' store filters argName opts image row
                    ∧ dataOf' systemContext store image
                        (imageOutputParams.CreatedAtRaw row)
                        (imageOutputParams.CreatedAt row)
                        (imageOutputParams.Size row)) new
      ∧ (length new <= rowsBound imgs)%nat
      ∧ (imageOptions.quiet opts = true → (length new <= length imgs)%nat)
      ∧ (imageOptions.json opts = true → new = [])
      ∧ (imageOptions.json opts = false → newJson = [])
      ∧ (length newJson <= length imgs)%nat
      ∧ Forall (fun j => ∃ image, image ∈ imgs
                                  ∧ entryOf' systemContext store image j) newJson.
Proof.
  induction imgs as [|image rest IH]; intros st.
  - exists [], []. cbn. rewrite !orb_false_r, !app_nil_r. destruct st.
    repeat split; try done; constructor.
  - cbn [images.outputImages_loop].
    destruct (outputImages_image_spec systemContext store filters argName opts st image)
      as (new1 & json1 & -> & Hrows1 & Hlen1 & Hq1 & Hj1 & Hnj1 & Hjl1 & Hjs1).
    cbn [mbind result_bind].
    destruct (IH (images.mkLoopState
                    (images.found st
                     || existsb (nameMatches ParseNormalizedNamed argName)
                          (storage.Names image))
                    (images.readOnlySeen st || storage.ReadOnly image)
                    (images.imagesParams st ++ new1)
                    (images.jsonImages st ++ json1)))
      as (new2 & json2 & -> & Hrows2 & Hlen2 & Hq2 & Hj2 & Hnj2 & Hjl2 & Hjs2).
    exists (new1 ++ new2), (json1 ++ json2).
    cbn [images.found images.readOnlySeen images.imagesParams images.jsonImages].
    unfold anyNameMatches. cbn [existsb]. rewrite <- !orb_assoc, <- !app_assoc.
    split; [done|]. split; [|split; [|split; [|split; [|split; [|split]]]]].
    + apply Forall_app. split.
      * eapply Forall_impl; [exact Hrows1|]. intros row Hrow. exists image.
        split; [apply elem_of_cons; by left|done].
      * eapply Forall_impl; [exact Hrows2|]. intros row (image' & Hin & Hrow).
        exists image'. split; [apply elem_of_cons; by right|done].
    + rewrite length_app. unfold rowsBound in *. cbn [sum_list_with]. lia.
    + intros Hq. rewrite length_app. specialize (Hq1 Hq). specialize (Hq2 Hq).
      cbn [length]. lia.
    + intros Hj. by rewrite (Hj1 Hj), (Hj2 Hj).
    + intros Hj. by rewrite (Hnj1 Hj), (Hnj2 Hj).
    + rewrite length_app. cbn [length]. lia.
    + apply Forall_app. split.
      * eapply Forall_impl; [exact Hjs1|]. intros j Hjj. exists image.
        split; [apply elem_of_cons; by left|done].
      * eapply Forall_impl; [exact Hjs2|]. intros j (image' & Hin & Hjj).
        exists image'. split; [apply elem_of_cons; by right|done].
Qed.



End ProjectorFacts.

(* ===================================================================== *)
(** * What [outputImages] returns *)
(* ===================================================================== *)

Section OutputFacts.

Context {Store SystemContext : Type}.
Variable ParseNormalizedNamed : string → option reference.Named.
Variable inspectImage : Store → string → images.inspectOutcome.
Variable getDateAndSize : SystemContext → Store → storage.Image → time.Time * Z.
Variable imageIsParent : SystemContext → Store → storage.Image → bool.
Variable HumanDurationSince : time.Time → string.
Variable sort_Sort : ∀ T : Type, sort.Interface T → T → T.
Variable IDString : string.

Local Abbreviation outputImages :=
  (images.outputImages ParseNormalizedNamed inspectImage getDateAndSize imageIsParent
     HumanDurationSince sort_Sort IDString).

(** [outputImages] in the three cases of its last lines. *)
Lemma outputImages_cases (systemContext : SystemContext) (store : Store)
    (imgs : list storage.Image) (filters : option filterParams.t)
    (argName : string) (opts : imageOptions.t) :
  ∃ rows data,
    outputImages systemContext store imgs filters argName opts
    = (if negb (anyNameMatches ParseNormalizedNamed argName imgs)
          && negb (String.eqb argName EmptyString)
       then Err ("No such image " +:+ argName)
       else if imageOptions.json opts then Ok (images.OutJSON data)
       else Ok (images.OutTable
                  (sort_Sort _ images.imagesSorted_Interface rows)
                  (images.outputHeader IDString
                     (withReadOnly opts
                        (imageOptions.readOnly opts || existsb storage.ReadOnly imgs)))))
    ∧ Forall (fun row => ∃ image, image ∈ imgs
                ∧ rowOf ParseNormalizedNamed inspectImage store filters argName opts
                    image row
                ∧ dataOf getDateAndSize HumanDurationSince systemContext store image
                    (imageOutputParams.CreatedAtRaw row)
                    (imageOutputParams.CreatedAt row)
                    (imageOutputParams.Size row)) rows
    ∧ (length rows <= rowsBound imgs)%nat
    ∧ (imageOptions.quiet opts = true → (length rows <= length imgs)%nat)
    ∧ (length data <= length imgs)%nat
    ∧ Forall (fun j => ∃ image, image ∈ imgs
                ∧ entryOf getDateAndSize HumanDurationSince systemContext store
                    image j) data.
Proof.
  unfold images.outputImages.
  destruct (outputImages_loop_spec ParseNormalizedNamed inspectImage getDateAndSize
              imageIsParent HumanDurationSince systemContext store filters argName opts
              imgs (images.mkLoopState false (imageOptions.readOnly opts) [] []))
    as (rows & data & -> & Hrows & Hlen & Hq & _ & _ & Hdl & Hdata).
  exists rows, data. split; [|done].
  cbn [mbind result_bind images.found images.readOnlySeen images.imagesParams
       images.jsonImages orb app].
  reflexivity.
Qed.

End OutputFacts.



(** X19. In JSON mode [outputImages] reports one entry per image record, not
    per name: at most as many entries as there are stored images, each
    with the untruncated identifier, all the names, the digests and the
    read-only flag of an image, the creation time of its configuration
    (that of the record when the configuration has none) and its size as
    [formattedSize] renders it. *)
Theorem outputImages_json {Store SystemContext : Type}
    (ParseNormalizedNamed : string → option reference.Named)
    (inspectImage : Store → string → images.inspectOutcome)
    (getDateAndSize : SystemContext → Store → storage.Image → time.Time * Z)
    (imageIsParent : SystemContext → Store → storage.Image → bool)
    (HumanDurationSince : time.Time → string)
    (sort_Sort : ∀ T : Type, sort.Interface T → T → T)
    (IDString : string)
    (systemContext : SystemContext) (store : Store)
    (imgs : list storage.Image) (filters : option filterParams.t)
    (argName : string) (opts : imageOptions.t) :
  imageOptions.json opts = true →
  argName = EmptyString ∨ anyNameMatches ParseNormalizedNamed argName imgs = true →
  ∃ data,
    images.outputImages ParseNormalizedNamed inspectImage getDateAndSize imageIsParent
      HumanDurationSince sort_Sort IDString systemContext store imgs filters argName
      opts = Ok (images.OutJSON data)
    ∧ (length data <= length imgs)%nat
    ∧ Forall (fun j => ∃ image, image ∈ imgs
                ∧ entryOf getDateAndSize HumanDurationSince systemContext store
                    image j) data.
Proof.
  intros Hjson Hfound.
  destruct (outputImages_cases ParseNormalizedNamed inspectImage getDateAndSize
              imageIsParent HumanDurationSince sort_Sort IDString systemContext store
              imgs filters argName opts) as (rows & data & -> & _ & _ & _ & Hlen & Hdata).
  exists data. rewrite Hjson. split; [|done].
  destruct Hfound as [-> | ->]; [by rewrite andb_false_r|done].
Qed.

Lemma outputImages_json_witness :
  ∃ data,
    samples.outputImages tt tt samples.theImages None EmptyString
      (imageOptions.mk false false EmptyString true false true false false)
    = Ok (images.OutJSON data)
    ∧ (length data <= length samples.theImages)%nat
    ∧ Forall (fun j => ∃ image, image ∈ samples.theImages
                ∧ entryOf samples.getDateAndSize samples.HumanDurationSince tt tt
                    image j) data.
Proof.
  apply (outputImages_json samples.parseReference samples.inspectImage
           samples.getDateAndSize samples.imageIsParent samples.HumanDurationSince
           samples.sort_Sort samples.IDString tt tt samples.theImages None EmptyString
           (imageOptions.mk false false EmptyString true false true false false)).
  - reflexivity.
  - by left.
Defined.

(** X20. In table mode the rows [outputImages] hands to [sort.Sort] all come
    from stored images: each carries the identifier, digests and
    read-only flag of an image, the creation time of its configuration
    (that of the record when the configuration has none), its size as
    [formattedSize] renders it, and the repository and tag of one of its
    names that matches the name argument and passes the filter, or an
    empty name and tag for an image without names.  There is at most one
    row per name (one for a nameless image), and at most one per image
    with [--quiet].  The read-only column of the template is there as
    soon as one stored image is read-only, listed or not. *)
Theorem outputImages_table {Store SystemContext : Type}
    (ParseNormalizedNamed : string → option reference.Named)
    (inspectImage : Store → string → images.inspectOutcome)
    (getDateAndSize : SystemContext → Store → storage.Image → time.Time * Z)
    (imageIsParent : SystemContext → Store → storage.Image → bool)
    (HumanDurationSince : time.Time → string)
    (sort_Sort : ∀ T : Type, sort.Interface T → T → T)
    (IDString : string)
    (systemContext : SystemContext) (store : Store)
    (imgs : list storage.Image) (filters : option filterParams.t)
    (argName : string) (opts : imageOptions.t) :
  imageOptions.json opts = false →
  argName = EmptyString ∨ anyNameMatches ParseNormalizedNamed argName imgs = true →
  ∃ rows,
    images.outputImages ParseNormalizedNamed inspectImage getDateAndSize imageIsParent
      HumanDurationSince sort_Sort IDString systemContext store imgs filters argName
      opts
    = Ok (images.OutTable
            (sort_Sort _ images.imagesSorted_Interface rows)
            (images.outputHeader IDString
               (withReadOnly opts
                  (imageOptions.readOnly opts || existsb storage.ReadOnly imgs))))
    ∧ Forall (fun row => ∃ image, image ∈ imgs
                ∧ rowOf ParseNormalizedNamed inspectImage store filters argName opts
                    image row
                ∧ dataOf getDateAndSize HumanDurationSince systemContext store image
                    (imageOutputParams.CreatedAtRaw row)
                    (imageOutputParams.CreatedAt row)
                    (imageOutputParams.Size row)) rows
    ∧ (length rows <= rowsBound imgs)%nat
    ∧ (imageOptions.quiet opts = true → (length rows <= length imgs)%nat).
Proof.
  intros Hjson Hfound.
  destruct (outputImages_cases ParseNormalizedNamed inspectImage getDateAndSize
              imageIsParent HumanDurationSince sort_Sort IDString systemContext store
              imgs filters argName opts) as (rows & data & -> & Hrows & Hlen & Hq & _).
  exists rows. rewrite Hjson. split; [|done].
  destruct Hfound as [-> | ->]; [by rewrite andb_false_r|done].
Qed.

Lemma outputImages_table_witness :
  ∃ rows,
    samples.outputImages tt tt samples.theImages None "image" samples.noOptions
    = Ok (images.OutTable
            (samples.sort_Sort _ images.imagesSorted_Interface rows)
            (images.outputHeader samples.IDString
               (withReadOnly samples.noOptions
                  (imageOptions.readOnly samples.noOptions
                   || existsb storage.ReadOnly samples.theImages))))
    ∧ Forall (fun row => ∃ image, image ∈ samples.theImages
                ∧ rowOf samples.parseReference samples.inspectImage tt None "image"
                    samples.noOptions image row
                ∧ dataOf samples.getDateAndSize samples.HumanDurationSince tt tt image
                    (imageOutputParams.CreatedAtRaw row)
                    (imageOutputParams.CreatedAt row)
                    (imageOutputParams.Size row)) rows
    ∧ (length rows <= rowsBound samples.theImages)%nat
    ∧ (imageOptions.quiet samples.noOptions = true →
       (length rows <= length samples.theImages)%nat).
Proof.
  apply (outputImages_table samples.parseReference samples.inspectImage
           samples.getDateAndSize samples.imageIsParent samples.HumanDurationSince
           samples.sort_Sort samples.IDString tt tt samples.theImages None "image"
           samples.noOptions).
  - reflexivity.
  - right. vm_compute. reflexivity.
Defined.

(* ===================================================================== *)
(** * The header template *)
(* ===================================================================== *)

(** X21. Without [--format] the template of [outputHeader] is the identifier
    template alone under [--quiet]; otherwise it shows the name, tag,
    identifier, creation time and size of a row, starts with [table ]
    unless the heading is turned off, has a digest column exactly under
    [--digests], and ends with the read-only column exactly when the
    read-only flag is set. *)
Theorem outputHeader_columns (IDString : string) (opts : imageOptions.t) :
  imageOptions.format opts = EmptyString →
  let h := images.outputHeader IDString opts in
  if imageOptions.quiet opts then h = IDString
  else
    strings.HasPrefix h "table " = negb (imageOptions.noHeading opts)
    ∧ strings.Contains h "{{.Digest}}" = imageOptions.digests opts
    ∧ strings.HasSuffix h "{{.ReadOnly}}" = imageOptions.readOnly opts
    ∧ Forall (fun column => strings.Contains h column = true)
        ["{{.Name}}"; "{{.Tag}}"; "{{.ID}}"; "{{.CreatedAt}}"; "{{.Size}}"].
Proof.
  destruct opts as [all digests format json noHeading truncate quiet readOnly].
  cbn [imageOptions.format imageOptions.quiet imageOptions.noHeading
       imageOptions.digests imageOptions.readOnly].
  intros ->. unfold images.outputHeader.
  cbn [imageOptions.format imageOptions.quiet imageOptions.noHeading
       imageOptions.digests imageOptions.readOnly].
  change (String.eqb EmptyString EmptyString) with true. cbn [negb].
  destruct quiet; [done|].
  destruct noHeading, digests, readOnly;
    (split; [vm_compute; reflexivity|]); (split; [vm_compute; reflexivity|]);
    (split; [vm_compute; reflexivity|]);
    repeat (constructor; [vm_compute; reflexivity|]); constructor.
Qed.

Lemma outputHeader_columns_witness :
  let h := images.outputHeader samples.IDString
             (imageOptions.mk false true EmptyString false false true false true) in
  strings.HasPrefix h "table " = true
  ∧ strings.Contains h "{{.Digest}}" = true
  ∧ strings.HasSuffix h "{{.ReadOnly}}" = true
  ∧ Forall (fun column => strings.Contains h column = true)
      ["{{.Name}}"; "{{.Tag}}"; "{{.ID}}"; "{{.CreatedAt}}"; "{{.Size}}"].
Proof.
  exact (outputHeader_columns samples.IDString
           (imageOptions.mk false true EmptyString false false true false true) eq_refl).
Defined.

(** X22. A [--format] template takes precedence over every other option, and
    one that holds no backslash-t sequence is used as it is written. *)
Theorem outputHeader_custom_format (IDString : string) (opts : imageOptions.t) :
  imageOptions.format opts ≠ EmptyString →
  strings.Contains (imageOptions.format opts) "\t" = false →
  images.outputHeader IDString opts = imageOptions.format opts.
Proof.
  intros Hne Hc. unfold images.outputHeader.
  destruct (String.eqb_spec (imageOptions.format opts) EmptyString) as [|_]; [done|].
  cbn [negb]. unfold strings.Replace. change (-1 <? 0) with true. cbv iota.
  change (strings.SplitN (imageOptions.format opts) "\t" (-1))
    with (strings.Split (imageOptions.format opts) "\t").
  rewrite Split_no_sep by (by apply Contains_false). done.
Qed.

Lemma outputHeader_custom_format_witness :
  images.outputHeader samples.IDString
    (imageOptions.mk false true "{{.ID}} {{.Size}}" false true true true true)
  = "{{.ID}} {{.Size}}".
Proof.
  apply (outputHeader_custom_format samples.IDString
           (imageOptions.mk false true "{{.ID}} {{.Size}}" false true true true true));
    [discriminate|reflexivity].
Defined.

(* ===================================================================== *)
(** * The command *)
(* ===================================================================== *)

Section CommandFacts.

Context {Store SystemContext : Type}.
Variable ParseNormalizedNamed : string → option reference.Named.
Variable inspectImage : Store → string → images.inspectOutcome.
Variable getDateAndSize : SystemContext → Store → storage.Image → time.Time * Z.
Variable imageIsParent : SystemContext → Store → storage.Image → bool.
Variable HumanDurationSince : time.Time → string.
Variable sort_Sort : ∀ T : Type, sort.Interface T → T → T.
Variable IDString : string.
Variable VerifyFlagsArgsOrder : list string → option string.
Variable getStore : result Store.
Variable SystemContextFromOptions : result SystemContext.
Variable store_Images : Store → result (list storage.Image).

Local Abbreviation imagesCmd :=
  (images.imagesCmd ParseNormalizedNamed inspectImage getDateAndSize imageIsParent
     HumanDurationSince sort_Sort IDString VerifyFlagsArgsOrder getStore
     SystemContextFromOptions store_Images).
Local Abbreviation outputImages :=
  (images.outputImages ParseNormalizedNamed inspectImage getDateAndSize imageIsParent
     HumanDurationSince sort_Sort IDString).
Local Abbreviation parseFilter :=
  (images.parseFilter ParseNormalizedNamed inspectImage).

(** The name [imagesCmd] works with: its single argument, or the empty
    string when there is none. *)
Lemma argsAccepted_hd (args : list string) (iopts : imageResults.t) :
  argsAccepted VerifyFlagsArgsOrder args iopts →
  (if (0 <? length args)%nat then
     if imageOptions.all (imageResults.imageOptions iopts) then
       Err "when using the --all switch, you may not pass any images names or IDs"
     else
       match VerifyFlagsArgsOrder args with
       | Some err => Err err
       | None =>
           if (length args =? 1)%nat then index args 0
           else Err "'buildah images' requires at most 1 argument"
       end
   else Ok EmptyString) = Ok (hd EmptyString args).
Proof.
  intros [-> | (Hall & Hv & Hl)]; [done|].
  rewrite Hall, Hv, Hl. destruct args as [|a [|b rest]]; try done.
Qed.

(** The run of [imagesCmd] once its arguments are accepted, the store
    answers and [--quiet] does not meet [--format]. *)
Lemma imagesCmd_accepted (args : list string) (iopts : imageResults.t)
    (store : Store) (systemContext : SystemContext) (imgs : list storage.Image) :
  argsAccepted VerifyFlagsArgsOrder args iopts →
  getStore = Ok store →
  SystemContextFromOptions = Ok systemContext →
  store_Images store = Ok imgs →
  imageOptions.quiet (imageResults.imageOptions iopts) = false
  ∨ imageOptions.format (imageResults.imageOptions iopts) = EmptyString →
  imagesCmd args iopts
  = if String.eqb (imageResults.filter iopts) EmptyString then
      ([images.EvGetStore; images.EvSystemContext; images.EvStoreImages;
        images.EvOutputImages],
       outputImages systemContext store imgs None (hd EmptyString args)
         (passedOptions iopts))
    else
      match parseFilter store imgs (imageResults.filter iopts) with
      | Ok params =>
          ([images.EvGetStore; images.EvSystemContext; images.EvStoreImages;
            images.EvParseFilter; images.EvOutputImages],
           outputImages systemContext store imgs (Some params) (hd EmptyString args)
             (passedOptions iopts))
      | Err e =>
          ([images.EvGetStore; images.EvSystemContext; images.EvStoreImages;
            images.EvParseFilter],
           Err ("error parsing filter: " +:+ e))
      | Panic p =>
          ([images.EvGetStore; images.EvSystemContext; images.EvStoreImages;
            images.EvParseFilter],
           Panic p)
      end.
Proof.
  intros Hargs Hs Hc Hi Hqf. unfold images.imagesCmd.
  rewrite (argsAccepted_hd args iopts Hargs), Hs, Hc.
  cbn -[String.eqb images.parseFilter images.outputImages]. rewrite Hi.
  cbn -[String.eqb images.parseFilter images.outputImages].
  assert (Hno : imageOptions.quiet (imageResults.imageOptions iopts)
                && negb (String.eqb (imageOptions.format (imageResults.imageOptions iopts))
                           EmptyString) = false).
  { destruct Hqf as [-> | ->]; [done|]. by rewrite andb_false_r. }
  rewrite Hno. fold (passedOptions iopts).
  destruct (String.eqb (imageResults.filter iopts) EmptyString);
    cbn -[String.eqb images.parseFilter images.outputImages].
  - by destruct (outputImages systemContext store imgs None (hd EmptyString args)
                   (passedOptions iopts)).
  - destruct (parseFilter store imgs (imageResults.filter iopts)) as [params|e|p];
      cbn -[String.eqb images.parseFilter images.outputImages]; try done.
Qed.

(** X23. [imagesCmd] checks its arguments before it touches the store: with
    arguments it refuses, in this order, [--all], options after the
    name, and more than one name, and no call is made. *)
Theorem imagesCmd_usage_errors (args : list string) (iopts : imageResults.t) :
  args ≠ [] →
  imageOptions.all (imageResults.imageOptions iopts) = true
  ∨ VerifyFlagsArgsOrder args ≠ None
  ∨ length args ≠ 1%nat →
  imagesCmd args iopts
  = ([],
     Err (if imageOptions.all (imageResults.imageOptions iopts)
          then "when using the --all switch, you may not pass any images names or IDs"
          else match VerifyFlagsArgsOrder args with
               | Some err => err
               | None => "'buildah images' requires at most 1 argument"
               end)).
Proof.
  intros Hne Hbad. unfold images.imagesCmd.
  destruct args as [|a rest]; [done|]. cbn [length Nat.ltb Nat.leb].
  destruct (imageOptions.all (imageResults.imageOptions iopts)); [done|].
  destruct (VerifyFlagsArgsOrder (a :: rest)) as [err|]; [done|].
  destruct Hbad as [?|[?|Hl]]; [done|done|].
  destruct rest as [|b rest]; [done|]. done.
Qed.

(** X24. The failures of the store reach the caller in the order of the
    calls: the error of [getStore] as it is, that of the system context
    and that of the image list each under its own prefix; nothing is
    called after the call that failed. *)
Theorem imagesCmd_collaborator_errors (args : list string) (iopts : imageResults.t) :
  argsAccepted VerifyFlagsArgsOrder args iopts →
  (∀ e, getStore = Err e → imagesCmd args iopts = ([images.EvGetStore], Err e))
  ∧ (∀ store e,
       getStore = Ok store → SystemContextFromOptions = Err e →
       imagesCmd args iopts
       = ([images.EvGetStore; images.EvSystemContext],
          Err ("error building system context: " +:+ e)))
  ∧ (∀ store systemContext e,
       getStore = Ok store → SystemContextFromOptions = Ok systemContext →
       store_Images store = Err e →
       imagesCmd args iopts
       = ([images.EvGetStore; images.EvSystemContext; images.EvStoreImages],
          Err ("error reading images: " +:+ e))).
Proof.
  intros Hargs. unfold images.imagesCmd.
  rewrite (argsAccepted_hd args iopts Hargs).
  split; [|split].
  - by intros e ->.
  - by intros store e -> ->.
  - intros store systemContext e -> ->. cbn. by intros ->.
Qed.

(** X25. Once the arguments are accepted and the store has answered,
    [imagesCmd] hands over to [outputImages]: the name is the single
    argument or empty, [truncate] is the negation of [--no-trunc], the
    read-only flag starts unset and the other options are passed as
    given.  An empty filter is not parsed and no filter is passed; any
    other is parsed first, and a filter that does not parse ends the
    command with [error parsing filter: ...] before any row is made. *)
Theorem imagesCmd_runs_outputImages (args : list string) (iopts : imageResults.t)
    (store : Store) (systemContext : SystemContext) (imgs : list storage.Image) :
  argsAccepted VerifyFlagsArgsOrder args iopts →
  getStore = Ok store →
  SystemContextFromOptions = Ok systemContext →
  store_Images store = Ok imgs →
  imageOptions.quiet (imageResults.imageOptions iopts) = false
  ∨ imageOptions.format (imageResults.imageOptions iopts) = EmptyString →
  imagesCmd args iopts
  = if String.eqb (imageResults.filter iopts) EmptyString then
      ([images.EvGetStore; images.EvSystemContext; images.EvStoreImages;
        images.EvOutputImages],
       outputImages systemContext store imgs None (hd EmptyString args)
         (passedOptions iopts))
    else
      match parseFilter store imgs (imageResults.filter iopts) with
      | Ok params =>
          ([images.EvGetStore; images.EvSystemContext; images.EvStoreImages;
            images.EvParseFilter; images.EvOutputImages],
           outputImages systemContext store imgs (Some params) (hd EmptyString args)
             (passedOptions iopts))
      | Err e =>
          ([images.EvGetStore; images.EvSystemContext; images.EvStoreImages;
            images.EvParseFilter],
           Err ("error parsing filter: " +:+ e))
      | Panic p =>
          ([images.EvGetStore; images.EvSystemContext; images.EvStoreImages;
            images.EvParseFilter],
           Panic p)
      end.
Proof. apply imagesCmd_accepted. Qed.


End CommandFacts.

Lemma imagesCmd_usage_errors_witness :
  samples.imagesCmd ["busybox"; "alpine"]
    (imageResults.mk (imageOptions.mk true false EmptyString false false false false false)
       EmptyString)
  = ([], Err "when using the --all switch, you may not pass any images names or IDs").
Proof.
  apply (imagesCmd_usage_errors samples.parseReference samples.inspectImage
           samples.getDateAndSize samples.imageIsParent samples.HumanDurationSince
           samples.sort_Sort samples.IDString samples.VerifyFlagsArgsOrder
           samples.getStore samples.SystemContextFromOptions samples.store_Images
           ["busybox"; "alpine"]
           (imageResults.mk
              (imageOptions.mk true false EmptyString false false false false false)
              EmptyString)).
  - discriminate.
  - by left.
Defined.

Lemma imagesCmd_collaborator_errors_witness :
  samples.imagesCmd_noStore ["busybox"] (samples.withFilter EmptyString)
  = ([images.EvGetStore], Err "unable to open the store").
Proof.
  apply (proj1 (imagesCmd_collaborator_errors samples.parseReference samples.inspectImage
           samples.getDateAndSize samples.imageIsParent samples.HumanDurationSince
           samples.sort_Sort samples.IDString samples.VerifyFlagsArgsOrder
           samples.noStore samples.SystemContextFromOptions samples.store_Images
           ["busybox"] (samples.withFilter EmptyString)
           (or_intror (conj eq_refl (conj eq_refl eq_refl))))).
  reflexivity.
Defined.

Lemma imagesCmd_runs_outputImages_witness :
  samples.imagesCmd ["myrepo/image"] (samples.withFilter "dangling=false")
  = ([images.EvGetStore; images.EvSystemContext; images.EvStoreImages;
      images.EvParseFilter; images.EvOutputImages],
     samples.outputImages tt tt samples.theImages
       (Some (filterParams.mk "false" EmptyString EmptyString EmptyString time.zero
                time.zero EmptyString EmptyString))
       "myrepo/image" (passedOptions (samples.withFilter "dangling=false"))).
Proof.
  exact (imagesCmd_runs_outputImages samples.parseReference samples.inspectImage
           samples.getDateAndSize samples.imageIsParent samples.HumanDurationSince
           samples.sort_Sort samples.IDString samples.VerifyFlagsArgsOrder
           samples.getStore samples.SystemContextFromOptions samples.store_Images
           ["myrepo/image"] (samples.withFilter "dangling=false") tt tt samples.theImages
           (or_intror (conj eq_refl (conj eq_refl eq_refl))) eq_refl eq_refl eq_refl
           (or_introl eq_refl)).
Defined.


(* ===================================================================== *)
(** * The check for intermediate images *)
(* ===================================================================== *)

Lemma outputImages_image_parents {Store SystemContext : Type}
    (ParseNormalizedNamed : string → option reference.Named)
    (inspectImage : Store → string → images.inspectOutcome)
    (getDateAndSize : SystemContext → Store → storage.Image → time.Time * Z)
    (imageIsParent imageIsParent' : SystemContext → Store → storage.Image → bool)
    (HumanDurationSince : time.Time → string)
    (systemContext : SystemContext) (store : Store)
    (filters : option filterParams.t) (argName : string) (opts : imageOptions.t)
    (st : images.loopState) (image : storage.Image) :
  imageOptions.all opts = true ∨ storage.Names image ≠ [] →
  images.outputImages_image ParseNormalizedNamed inspectImage getDateAndSize
    imageIsParent HumanDurationSince systemContext store filters argName opts st image
  = images.outputImages_image ParseNormalizedNamed inspectImage getDateAndSize
      imageIsParent' HumanDurationSince systemContext store filters argName opts st image.
Proof.
  intros Hall. unfold images.outputImages_image.
  destruct (getDateAndSize systemContext store image) as [inspectedTime size].
  assert (Hskip : negb (imageOptions.all opts)
                  && (length (storage.Names image) =? 0)%nat = false).
  { destruct Hall as [-> | Hn]; [done|].
    destruct (storage.Names image); [done|]. by rewrite andb_false_r. }
  by rewrite Hskip.
Qed.

(** X28. Only an image without names can be held back as an intermediate
    image, and only without [--all]: with [--all], or when every stored
    image has a name, what [imageIsParent] answers has no bearing on
    what [outputImages] returns. *)
Theorem outputImages_parent_check {Store SystemContext : Type}
    (ParseNormalizedNamed : string → option reference.Named)
    (inspectImage : Store → string → images.inspectOutcome)
    (getDateAndSize : SystemContext → Store → storage.Image → time.Time * Z)
    (imageIsParent imageIsParent' : SystemContext → Store → storage.Image → bool)
    (HumanDurationSince : time.Time → string)
    (sort_Sort : ∀ T : Type, sort.Interface T → T → T)
    (IDString : string)
    (systemContext : SystemContext) (store : Store)
    (imgs : list storage.Image) (filters : option filterParams.t)
    (argName : string) (opts : imageOptions.t) :
  imageOptions.all opts = true
  ∨ Forall (fun image => storage.Names image ≠ []) imgs →
  images.outputImages ParseNormalizedNamed inspectImage getDateAndSize imageIsParent
    HumanDurationSince sort_Sort IDString systemContext store imgs filters argName opts
  = images.outputImages ParseNormalizedNamed inspectImage getDateAndSize imageIsParent'
      HumanDurationSince sort_Sort IDString systemContext store imgs filters argName
      opts.
Proof.
  intros Hall. unfold images.outputImages.
  assert (Hloop : ∀ st,
            images.outputImages_loop ParseNormalizedNamed inspectImage getDateAndSize
              imageIsParent HumanDurationSince systemContext store filters argName opts
              st imgs
            = images.outputImages_loop ParseNormalizedNamed inspectImage getDateAndSize
                imageIsParent' HumanDurationSince systemContext store filters argName
                opts st imgs).
  { induction imgs as [|image rest IH]; intros st; [done|].
    cbn [images.outputImages_loop].
    rewrite (outputImages_image_parents ParseNormalizedNamed inspectImage getDateAndSize
               imageIsParent imageIsParent').
    - destruct (images.outputImages_image _ _ _ imageIsParent' _ _ _ _ _ _ st image);
        cbn [mbind result_bind]; [|done|done].
      apply IH. destruct Hall as [?|Hn]; [by left|right]. by inversion Hn.
    - destruct Hall as [?|Hn]; [by left|right]. by inversion Hn. }
  by rewrite Hloop.
Qed.

Lemma outputImages_parent_check_witness :
  images.outputImages samples.parseReference samples.inspectImage samples.getDateAndSize
    samples.imageIsParent samples.HumanDurationSince samples.sort_Sort samples.IDString
    tt tt samples.theImages None EmptyString
    (imageOptions.mk true false EmptyString false false true false false)
  = images.outputImages samples.parseReference samples.inspectImage
      samples.getDateAndSize (fun _ _ _ => false) samples.HumanDurationSince
      samples.sort_Sort samples.IDString tt tt samples.theImages None EmptyString
      (imageOptions.mk true false EmptyString false false true false false).
Proof.
  apply (outputImages_parent_check samples.parseReference samples.inspectImage
           samples.getDateAndSize samples.imageIsParent (fun _ _ _ => false)
           samples.HumanDurationSince samples.sort_Sort samples.IDString tt tt
           samples.theImages None EmptyString
           (imageOptions.mk true false EmptyString false false true false false)).
  by left.
Defined.
